(** * The sampling engine of the performance monitor

    A shallow embedding of [performance-monitor/src/main.cpp]: the
    [SystemMetrics] class (snapshot builder, bounded history queue,
    sampler loop, lifecycle), the [WebServer] class, [main], and of the
    platform readers those compiled for Linux (the [#else] branches).

    Conventions
    - [double] is the primitive binary64 [float];
    - [size_t] is [N], every value below [2^64]; the only arithmetic the
      code does on it is the loop counter [++i], which stays below the
      queue size, and [size() - 1] and [length() - 2], written out with
      their wrap-around;
    - [std::chrono::steady_clock::time_point] is the tick count, a [Z];
    - [std::queue<MetricSnapshot>] is a [list], front of the queue first;
    - [std::vector] is a [list];
    - the object's fields are threaded explicitly as a [SystemMetrics]
      record;
    - what a function reads from the operating system (the clock, the
      files under [/proc], [sysinfo]) is an argument of its model;
    - the text of [what()] of an exception the standard library throws
      is the one of libstdc++. *)

From stdpp Require Import base numbers list strings pretty gmap.
From Stdlib Require Import Floats.PrimFloat Floats.SpecFloat Floats.FloatOps.
From Stdlib Require Import Strings.Ascii Sorting.Sorted.

(** ** Data model *)

Record ProcessInfo := mkProcessInfo {
  pid : N;
  name : string;
  cpu_percent : float;
  memory_bytes : N;
  status : string
}.

Record MetricSnapshot := mkMetricSnapshot {
  timestamp : Z;
  cpu_usage : float;
  memory_usage : float;
  disk_usage : float;
  network_rx : float;
  network_tx : float;
  top_processes : list ProcessInfo
}.

(** What the [Logger] collaborator has been asked to write.  A warning
    built as [prefix + std::to_string(value) + suffix] keeps its three
    parts. *)
Inductive LogRecord :=
| LogInfo (msg : string)
| LogWarn (prefix : string) (value : float) (suffix : string)
| LogError (msg : string).

(** The fields of a [SystemMetrics] object.  [monitoring_thread] is
    [true] when the [std::thread] member is joinable; [loop_threads]
    counts the threads that execute [monitor_loop]. *)
Record SystemMetrics := mkSystemMetrics {
  monitoring : bool;
  monitoring_thread : bool;
  loop_threads : nat;
  metric_history : list MetricSnapshot;
  logger : list LogRecord
}.

Definition MAX_HISTORY_SIZE : N := 1000.

(** The object right after [SystemMetrics()]. *)
Definition new_SystemMetrics : SystemMetrics :=
  {| monitoring := false; monitoring_thread := false; loop_threads := 0;
     metric_history := []; logger := [] |}.

Definition with_history (q : list MetricSnapshot) (st : SystemMetrics) : SystemMetrics :=
  {| monitoring := monitoring st; monitoring_thread := monitoring_thread st;
     loop_threads := loop_threads st; metric_history := q; logger := logger st |}.

(** The object holding the queue [q] and nothing else. *)
Definition holding (q : list MetricSnapshot) : SystemMetrics :=
  with_history q new_SystemMetrics.

Definition log (r : LogRecord) (st : SystemMetrics) : SystemMetrics :=
  {| monitoring := monitoring st; monitoring_thread := monitoring_thread st;
     loop_threads := loop_threads st; metric_history := metric_history st;
     logger := logger st ++ [r] |}.

(** ** [std::queue] *)

Definition queue_size (q : list MetricSnapshot) : N := N.of_nat (length q).

Definition queue_push (s : MetricSnapshot) (q : list MetricSnapshot) : list MetricSnapshot :=
  q ++ [s].

(** [pop] on an empty queue is undefined in C++; both call sites test
    the queue first, so the empty case is never reached. *)
Definition queue_pop (q : list MetricSnapshot) : list MetricSnapshot :=
  match q with
  | [] => []
  | _ :: q' => q'
  end.

(** ** Exceptions and the metric sources *)

(** The result of calling code that may throw a [std::exception]. *)
Inductive outcome (A : Type) : Type :=
| Returns (a : A)
| Throws (what : string).
Arguments Returns {A} a.
Arguments Throws {A} what.

(** What each platform reader answers when it is called during one
    build.  The readers are the collaborators of the builder; on Linux
    [get_top_processes] can throw from [std::stoul] and [substr]. *)
Record MetricSource := mkMetricSource {
  get_cpu_usage : outcome float;
  get_memory_usage : outcome float;
  get_disk_usage : outcome float;
  get_network_usage : outcome (float * float);
  get_top_processes : N → outcome (list ProcessInfo)
}.

(** [MetricSnapshot snapshot;] default-initialises the local: the five
    [double] members hold indeterminate values, given here explicitly;
    the [time_point] is the epoch and the vector is empty. *)
Record Indeterminate := mkIndeterminate {
  ind_cpu_usage : float;
  ind_memory_usage : float;
  ind_disk_usage : float;
  ind_network_rx : float;
  ind_network_tx : float
}.

Definition default_init (i : Indeterminate) : MetricSnapshot :=
  {| timestamp := 0;
     cpu_usage := ind_cpu_usage i;
     memory_usage := ind_memory_usage i;
     disk_usage := ind_disk_usage i;
     network_rx := ind_network_rx i;
     network_tx := ind_network_tx i;
     top_processes := [] |}.

Definition set_timestamp (v : Z) (s : MetricSnapshot) : MetricSnapshot :=
  mkMetricSnapshot v (cpu_usage s) (memory_usage s) (disk_usage s)
    (network_rx s) (network_tx s) (top_processes s).
Definition set_cpu_usage (v : float) (s : MetricSnapshot) : MetricSnapshot :=
  mkMetricSnapshot (timestamp s) v (memory_usage s) (disk_usage s)
    (network_rx s) (network_tx s) (top_processes s).
Definition set_memory_usage (v : float) (s : MetricSnapshot) : MetricSnapshot :=
  mkMetricSnapshot (timestamp s) (cpu_usage s) v (disk_usage s)
    (network_rx s) (network_tx s) (top_processes s).
Definition set_disk_usage (v : float) (s : MetricSnapshot) : MetricSnapshot :=
  mkMetricSnapshot (timestamp s) (cpu_usage s) (memory_usage s) v
    (network_rx s) (network_tx s) (top_processes s).
Definition set_network_rx (v : float) (s : MetricSnapshot) : MetricSnapshot :=
  mkMetricSnapshot (timestamp s) (cpu_usage s) (memory_usage s) (disk_usage s)
    v (network_tx s) (top_processes s).
Definition set_network_tx (v : float) (s : MetricSnapshot) : MetricSnapshot :=
  mkMetricSnapshot (timestamp s) (cpu_usage s) (memory_usage s) (disk_usage s)
    (network_rx s) v (top_processes s).
Definition set_top_processes (v : list ProcessInfo) (s : MetricSnapshot) : MetricSnapshot :=
  mkMetricSnapshot (timestamp s) (cpu_usage s) (memory_usage s) (disk_usage s)
    (network_rx s) (network_tx s) v.

(** The body of a [try] block that assigns to the local [snapshot]: a
    computation over the snapshot under construction that may throw.
    What was assigned before the throw stays assigned. *)
Definition Build (A : Type) : Type := MetricSnapshot → outcome A * MetricSnapshot.

Global Instance Build_ret : MRet Build := λ A a s, (Returns a, s).
Global Instance Build_bind : MBind Build := λ A B f m s,
  match m s with
  | (Returns a, s') => f a s'
  | (Throws what, s') => (Throws what, s')
  end.

Definition call {A} (o : outcome A) : Build A := λ s, (o, s).
Definition assign (set : MetricSnapshot → MetricSnapshot) : Build unit :=
  λ s, (Returns (), set s).

(** ** [SystemMetrics::get_current_metrics] *)

(** Lines 91-97, the body of the [try]. *)
Definition collect (src : MetricSource) : Build unit :=
  v ← call (get_cpu_usage src); assign (set_cpu_usage v);;
  v ← call (get_memory_usage src); assign (set_memory_usage v);;
  v ← call (get_disk_usage src); assign (set_disk_usage v);;
  network ← call (get_network_usage src);
  assign (set_network_rx network.1);;
  assign (set_network_tx network.2);;
  v ← call (get_top_processes src 10%N); assign (set_top_processes v).

(** The handler of the [catch], lines 98-100. *)
Definition collect_failed (what : string) (st : SystemMetrics) : SystemMetrics :=
  log (LogError ("Error collecting metrics: " +:+ what)) st.

Definition get_current_metrics (now : Z) (src : MetricSource) (i : Indeterminate)
    (st : SystemMetrics) : MetricSnapshot * SystemMetrics :=
  let snapshot := set_timestamp now (default_init i) in
  match collect src snapshot with
  | (Returns _, snapshot) => (snapshot, st)
  | (Throws what, snapshot) => (snapshot, collect_failed what st)
  end.

(** ** [SystemMetrics::get_history] *)

(** The [for] loop of lines 113-116: [i] counts up to [items] while
    [temp] is not empty; each round moves the front of [temp] to the
    back of [history]. *)
Fixpoint get_history_loop (i items : N) (temp history : list MetricSnapshot)
    : list MetricSnapshot :=
  match temp with
  | [] => history
  | front :: temp' =>
      if (i <? items)%N
      then get_history_loop (i + 1)%N items temp' (history ++ [front])
      else history
  end.

Definition history_items (count size : N) : N :=
  if (count =? 0)%N || (size <? count)%N then size else count.

Definition get_history (count : N) (st : SystemMetrics)
    : list MetricSnapshot * SystemMetrics :=
  let size := queue_size (metric_history st) in
  let items := history_items count size in
  let temp := metric_history st in
  (get_history_loop 0%N items temp [], st).

(** A caller holding a signed 64-bit count reaches the [size_t]
    parameter through the implicit integral conversion, which reduces
    the value modulo [2^64]. *)
Definition size_t_of_int (z : Z) : N := Z.to_N (z mod 2 ^ 64).

(** A call of [get_history] seen as code that could throw: it has no
    [throw] and reports no error to its caller. *)
Definition get_history_call (count : Z) (st : SystemMetrics)
    : outcome (list MetricSnapshot) :=
  Returns (get_history (size_t_of_int count) st).1.

(** ** [SystemMetrics::monitor_loop] *)

(** Lines 162-164. *)
Definition evict_overflow (cap : N) (q : list MetricSnapshot) : list MetricSnapshot :=
  if (cap <? queue_size q)%N then queue_pop q else q.

(** Lines 160-164 for a queue of capacity [cap]: push, then pop when
    the size exceeds the capacity. *)
Definition history_append (cap : N) (q : list MetricSnapshot) (s : MetricSnapshot)
    : list MetricSnapshot :=
  evict_overflow cap (queue_push s q).

(** The contents of the queue after each of the two statements of an
    append, in program order. *)
Definition append_trace (cap : N) (q : list MetricSnapshot) (s : MetricSnapshot)
    : list (list MetricSnapshot) :=
  let q1 := queue_push s q in
  [q1; evict_overflow cap q1].

Definition run_appends (cap : N) (l : list MetricSnapshot) : list MetricSnapshot :=
  foldl (history_append cap) [] l.

(** What one round of the loop reads from outside the object. *)
Record TickInput := mkTickInput {
  tick_now : Z;
  tick_sources : MetricSource;
  tick_indet : Indeterminate
}.

Definition warn_if_high (prefix : string) (v : float) (st : SystemMetrics) : SystemMetrics :=
  if PrimFloat.ltb 90%float v then log (LogWarn prefix v "%") st else st.

(** One round of the [while] loop, lines 156-176. *)
Definition monitor_tick (inp : TickInput) (st : SystemMetrics) : SystemMetrics :=
  let '(snapshot, st) :=
    get_current_metrics (tick_now inp) (tick_sources inp) (tick_indet inp) st in
  let st := with_history
              (history_append MAX_HISTORY_SIZE (metric_history st) snapshot) st in
  let st := warn_if_high "High CPU usage: " (cpu_usage snapshot) st in
  warn_if_high "High memory usage: " (memory_usage snapshot) st.

(** The rounds the loop makes while it reads [monitoring] as [true]. *)
Definition monitor_loop (inputs : list TickInput) (st : SystemMetrics) : SystemMetrics :=
  foldl (λ st inp, monitor_tick inp st) st inputs.

(** The snapshot a round builds. *)
Definition tick_snapshot (inp : TickInput) : MetricSnapshot :=
  (get_current_metrics (tick_now inp) (tick_sources inp) (tick_indet inp)
     new_SystemMetrics).1.

(** ** Lifecycle: [start_monitoring] and [stop_monitoring] *)

Inductive lifecycle := Stopped | Running.

Definition lifecycle_of (st : SystemMetrics) : lifecycle :=
  if monitoring st then Running else Stopped.

(** [None] is [std::terminate]: move-assigning to a [std::thread] that
    is still joinable. *)
Definition start_monitoring (st : SystemMetrics) : option SystemMetrics :=
  if monitoring st then Some st
  else if monitoring_thread st then None
  else Some (log (LogInfo "Performance monitoring started")
    {| monitoring := true; monitoring_thread := true;
       loop_threads := S (loop_threads st);
       metric_history := metric_history st; logger := logger st |}).

(** [join] returns once the loop thread has left [monitor_loop]; after
    the flag is cleared the thread finishes at most the round it had
    started, given by [inflight]. *)
Definition stop_monitoring (inflight : option TickInput) (st : SystemMetrics)
    : SystemMetrics :=
  if negb (monitoring st) then st
  else
    let st := {| monitoring := false; monitoring_thread := monitoring_thread st;
                 loop_threads := loop_threads st;
                 metric_history := metric_history st; logger := logger st |} in
    let st :=
      if monitoring_thread st then
        let st := from_option (λ inp, monitor_tick inp st) st inflight in
        {| monitoring := monitoring st; monitoring_thread := false;
           loop_threads := pred (loop_threads st);
           metric_history := metric_history st; logger := logger st |}
      else st in
    log (LogInfo "Performance monitoring stopped") st.

(** What can happen to the object from outside: the two lifecycle calls
    and a round of the loop thread, which runs only while it reads the
    flag as [true]. *)
Inductive lifecycle_event :=
| CallStart
| CallStop (inflight : option TickInput)
| LoopRound (inp : TickInput).

Definition lifecycle_step (st : SystemMetrics) (e : lifecycle_event)
    : option SystemMetrics :=
  match e with
  | CallStart => start_monitoring st
  | CallStop inflight => Some (stop_monitoring inflight st)
  | LoopRound inp => Some (if monitoring st then monitor_tick inp st else st)
  end.

Fixpoint lifecycle_run (es : list lifecycle_event) (st : SystemMetrics)
    : option SystemMetrics :=
  match es with
  | [] => Some st
  | e :: es' =>
      match lifecycle_step st e with
      | Some st' => lifecycle_run es' st'
      | None => None
      end
  end.

(** ** The loop thread and the callers of [get_history] under [data_mutex] *)

(** One writer (the thread in [monitor_loop]) and any number of readers
    (threads inside [get_history]) take turns, one statement at a time.
    [std::mutex] is the identity of its owner; [lock_guard] acquires it
    only when it is free and releases it at the end of its scope. *)
Inductive thread_id := Writer | Reader (r : nat).

(** Where the loop thread stands in a round. *)
Inductive writer_pc :=
| WIdle                          (* between rounds, lines 155 and 178 *)
| WBuilt (s : MetricSnapshot)    (* after line 157 *)
| WLocked (s : MetricSnapshot)   (* after line 159 *)
| WPushed (s : MetricSnapshot)   (* after line 160 *)
| WEvicted (s : MetricSnapshot). (* after lines 162-164 *)

(** Where a caller stands in [get_history(count)], with its locals. *)
Inductive reader_pc :=
| RCalled (count : N)
| RLocked (count : N)                                   (* after line 106 *)
| RSized (count items : N)                              (* after line 110 *)
| RLoop (count i items : N) (temp history : list MetricSnapshot)
                                                        (* lines 112-116 *)
| RReturned (count : N) (result : list MetricSnapshot). (* after line 118 *)

Record World := mkWorld {
  data_mutex : option thread_id;
  shared_history : list MetricSnapshot;
  writer : writer_pc;
  readers : gmap nat reader_pc
}.

Definition init_world : World :=
  {| data_mutex := None; shared_history := []; writer := WIdle; readers := ∅ |}.

(** The scheduler's choice: which thread makes its next statement.  The
    input of a round is read when the round builds its snapshot. *)
Inductive sched :=
| WriterStep (inp : TickInput)
| ReaderCall (r : nat) (count : N)
| ReaderStep (r : nat).

Definition writer_step (inp : TickInput) (w : World) : option World :=
  match writer w with
  | WIdle =>
      Some (mkWorld (data_mutex w) (shared_history w)
              (WBuilt (tick_snapshot inp)) (readers w))
  | WBuilt s =>
      match data_mutex w with
      | None => Some (mkWorld (Some Writer) (shared_history w) (WLocked s) (readers w))
      | Some _ => None
      end
  | WLocked s =>
      Some (mkWorld (data_mutex w) (queue_push s (shared_history w))
              (WPushed s) (readers w))
  | WPushed s =>
      Some (mkWorld (data_mutex w)
              (evict_overflow MAX_HISTORY_SIZE (shared_history w))
              (WEvicted s) (readers w))
  | WEvicted s =>
      Some (mkWorld None (shared_history w) WIdle (readers w))
  end.

Definition reader_call (r : nat) (count : N) (w : World) : option World :=
  match readers w !! r with
  | None | Some (RReturned _ _) =>
      Some (mkWorld (data_mutex w) (shared_history w) (writer w)
              (<[r := RCalled count]> (readers w)))
  | Some _ => None
  end.

Definition set_reader (r : nat) (pc : reader_pc) (w : World) : World :=
  mkWorld (data_mutex w) (shared_history w) (writer w) (<[r := pc]> (readers w)).

Definition reader_return (r : nat) (count : N) (history : list MetricSnapshot)
    (w : World) : World :=
  mkWorld None (shared_history w) (writer w)
    (<[r := RReturned count history]> (readers w)).

Definition reader_step (r : nat) (w : World) : option World :=
  match readers w !! r with
  | Some (RCalled count) =>
      match data_mutex w with
      | None =>
          Some (mkWorld (Some (Reader r)) (shared_history w) (writer w)
                  (<[r := RLocked count]> (readers w)))
      | Some _ => None
      end
  | Some (RLocked count) =>
      Some (set_reader r
              (RSized count (history_items count (queue_size (shared_history w)))) w)
  | Some (RSized count items) =>
      Some (set_reader r (RLoop count 0%N items (shared_history w) []) w)
  | Some (RLoop count i items temp history) =>
      match temp with
      | front :: temp' =>
          if (i <? items)%N
          then Some (set_reader r
                       (RLoop count (i + 1)%N items temp' (history ++ [front])) w)
          else Some (reader_return r count history w)
      | [] => Some (reader_return r count history w)
      end
  | Some (RReturned _ _) | None => None
  end.

Definition world_step (w : World) (e : sched) : option World :=
  match e with
  | WriterStep inp => writer_step inp w
  | ReaderCall r count => reader_call r count w
  | ReaderStep r => reader_step r w
  end.

(** What [get_history(count)] returns on a queue [q]. *)
Definition history_view (count : N) (q : list MetricSnapshot) : list MetricSnapshot :=
  (get_history count (holding q)).1.

(** The worlds a schedule goes through from [w], oldest first, after
    the worlds [seen] that came before; [None] when the schedule asks a
    thread for a statement it cannot make (the mutex is taken, or the
    caller is not inside [get_history]). *)
Fixpoint world_trace (es : list sched) (seen : list World) (w : World)
    : option (list World) :=
  match es with
  | [] => Some (seen ++ [w])
  | e :: es' =>
      match world_step w e with
      | Some w' => world_trace es' (seen ++ [w]) w'
      | None => None
      end
  end.

(** The loop thread is outside the two statements of an append. *)
Definition between_appends (w : World) : bool :=
  match writer w with
  | WIdle | WBuilt _ => true
  | WLocked _ | WPushed _ | WEvicted _ => false
  end.

(** ** Invariants of the threads *)

(** The shared queue in terms of the snapshots [committed] whose append is
    complete, for each position of the loop thread. *)
Definition writer_inv (committed : list MetricSnapshot) (m : option thread_id)
    (sh : list MetricSnapshot) (pc : writer_pc) : Prop :=
  let q := run_appends MAX_HISTORY_SIZE committed in
  match pc with
  | WIdle | WBuilt _ => sh = q
  | WLocked _ => m = Some Writer ∧ sh = q
  | WPushed s => m = Some Writer ∧ sh = queue_push s q
  | WEvicted s => m = Some Writer ∧ sh = history_append MAX_HISTORY_SIZE q s
  end.

(** A caller is between its [lock_guard] and its [return]. *)
Definition reader_in_section (pc : reader_pc) : bool :=
  match pc with
  | RLocked _ | RSized _ _ | RLoop _ _ _ _ _ => true
  | RCalled _ | RReturned _ _ => false
  end.

(** The argument of the call a caller is in, or has returned from. *)
Definition reader_count (pc : reader_pc) : N :=
  match pc with
  | RCalled count | RLocked count | RSized count _ | RLoop count _ _ _ _
  | RReturned count _ => count
  end.

(** Caller [r] was given [result] by its call [get_history(count)], and
    the worlds [seen] say where from: they split at a world [w0] in which
    [r] owns the mutex inside that call, the loop thread being between
    two appends and the shared queue the result of the complete ones;
    [result] is what [get_history] computes on that queue; and in every
    world since, [r] has returned from that call with that result. *)
Definition observed (seen : list World) (r : nat) (count : N)
    (result : list MetricSnapshot) : Prop :=
  ∃ (before : list World) (w0 : World) (after : list World)
    (committed : list MetricSnapshot) (pc0 : reader_pc),
    seen = before ++ w0 :: after
    ∧ data_mutex w0 = Some (Reader r)
    ∧ readers w0 !! r = Some pc0
    ∧ reader_in_section pc0 = true
    ∧ reader_count pc0 = count
    ∧ between_appends w0 = true
    ∧ shared_history w0 = run_appends MAX_HISTORY_SIZE committed
    ∧ result = history_view count (shared_history w0)
    ∧ Forall (λ w', readers w' !! r = Some (RReturned count result)) after.

(** The locals of a caller of [get_history] in terms of the shared
    queue, and what a returned caller was given in terms of the worlds
    [seen] so far. *)
Definition reader_inv (seen : list World) (m : option thread_id)
    (sh : list MetricSnapshot) (r : nat) (pc : reader_pc) : Prop :=
  match pc with
  | RCalled _ => True
  | RLocked _ => m = Some (Reader r)
  | RSized count items =>
      m = Some (Reader r) ∧ items = history_items count (queue_size sh)
  | RLoop count i items temp history =>
      m = Some (Reader r)
      ∧ get_history_loop i items temp history = history_view count sh
  | RReturned count result => observed seen r count result
  end.

Definition world_inv (seen : list World) (w : World) : Prop :=
  (∃ committed, writer_inv committed (data_mutex w) (shared_history w) (writer w))
  ∧ ∀ r pc, readers w !! r = Some pc →
      reader_inv seen (data_mutex w) (shared_history w) r pc.

(** ** Invariant of the lifecycle *)

(** The thread member is joinable exactly while the flag is set, and
    then exactly one thread runs the loop. *)
Definition lifecycle_inv (st : SystemMetrics) : Prop :=
  monitoring_thread st = monitoring st
  ∧ loop_threads st = (if monitoring st then 1 else 0).

(** ** Concrete values for the examples *)

(** A snapshot captured at tick [t] with every reading zero. *)
Definition snapshot_at (t : Z) : MetricSnapshot :=
  mkMetricSnapshot t 0 0 0 0 0 [].

Definition zero_indet : Indeterminate := mkIndeterminate 0 0 0 0 0.

Definition init_process : ProcessInfo := mkProcessInfo 1 "init" 0 0 "running".

(** Every reader answers. *)
Definition healthy_source : MetricSource :=
  {| get_cpu_usage := Returns 12.5%float;
     get_memory_usage := Returns 50%float;
     get_disk_usage := Returns 40%float;
     get_network_usage := Returns (100%float, 200%float);
     get_top_processes := λ _, Returns [init_process] |}.

(** The memory reader throws; the other readers answer as before. *)
Definition memory_fails : MetricSource :=
  {| get_cpu_usage := get_cpu_usage healthy_source;
     get_memory_usage := Throws "sysinfo";
     get_disk_usage := get_disk_usage healthy_source;
     get_network_usage := get_network_usage healthy_source;
     get_top_processes := get_top_processes healthy_source |}.

(** A round at clock reading [t] with every reader answering. *)
Definition tick_at (t : Z) : TickInput := mkTickInput t healthy_source zero_indet.

(** A history filled to [MAX_HISTORY_SIZE]. *)
Definition full_history : list MetricSnapshot :=
  snapshot_at <$> seqZ 0 1000.

(** One round of the loop, then a call [get_history(50)] that takes
    the mutex while the loop thread builds its second snapshot; the
    loop thread starts its second append after the call has returned. *)
Definition example_schedule : list sched :=
  replicate 5 (WriterStep (tick_at 1))
  ++ [ReaderCall 0 50; ReaderStep 0; WriterStep (tick_at 2)]
  ++ replicate 4 (ReaderStep 0)
  ++ replicate 2 (WriterStep (tick_at 2)).

(** ** More on the threads under [data_mutex] *)

(** The final world of a schedule. *)
Fixpoint world_run (es : list sched) (w : World) : option World :=
  match es with
  | [] => Some w
  | e :: es' =>
      match world_step w e with
      | Some w' => world_run es' w'
      | None => None
      end
  end.

(** The owner of the mutex is inside its critical section. *)
Definition owner_inv (w : World) : Prop :=
  match data_mutex w with
  | None => True
  | Some Writer => between_appends w = false
  | Some (Reader r) =>
      ∃ pc, readers w !! r = Some pc ∧ reader_in_section pc = true
  end.

(** The statement the scheduler asks of a thread; the input of a round
    matters only to a loop thread that is between rounds. *)
Definition statement_of (inp : TickInput) (t : thread_id) : sched :=
  match t with
  | Writer => WriterStep inp
  | Reader r => ReaderStep r
  end.


(** ** More concrete values *)

(** The cpu reader throws and the uninitialised cpu field happens to
    hold 95. *)
Definition cpu_fails : MetricSource :=
  {| get_cpu_usage := Throws "stat";
     get_memory_usage := get_memory_usage healthy_source;
     get_disk_usage := get_disk_usage healthy_source;
     get_network_usage := get_network_usage healthy_source;
     get_top_processes := get_top_processes healthy_source |}.

Definition stale_indet : Indeterminate := mkIndeterminate 95 0 0 0 0.

Definition failing_tick : TickInput := mkTickInput 7 cpu_fails stale_indet.

(** One round of the loop, then a caller that has just taken the
    mutex. *)
Definition locked_schedule : list sched :=
  replicate 5 (WriterStep (tick_at 1)) ++ [ReaderCall 0 50; ReaderStep 0].


(** ** Text written to a stream *)

(** The double quote and the line feed. *)
Definition dq : string := String "034"%char EmptyString.
Definition nl : string := String "010"%char EmptyString.

(** A JSON key: the name between double quotes. *)
Definition key (k : string) : string := dq +:+ k +:+ dq.

(** [a - b] on [size_t]. *)
Definition size_t_sub (a b : N) : N := Z.to_N ((Z.of_N a - Z.of_N b) mod 2 ^ 64).

(** What the code takes from the C++ implementation it is built with:
    how [operator<<] prints a [double] under [std::fixed] and
    [std::setprecision(2)], and how many ticks of [steady_clock] make a
    millisecond (the divisor of the [duration_cast]). *)
Record Platform := mkPlatform {
  show_fixed2 : float → string;
  ticks_per_ms : Z
}.

(** [duration_cast<milliseconds>(t.time_since_epoch()).count()]: the
    division truncates toward zero. *)
Definition milliseconds (pf : Platform) (t : Z) : Z := Z.quot t (ticks_per_ms pf).

(** ** [SystemMetrics::get_system_info], the branch for Linux *)

(** What [sysinfo] and [get_nprocs] answer. *)
Record SysInfo := mkSysInfo {
  nprocs : Z;
  totalram : N;
  mem_unit : N;
  uptime : Z
}.

(** [si.totalram * si.mem_unit / 1024 / 1024] on [unsigned long]. *)
Definition total_memory (si : SysInfo) : N :=
  ((totalram si * mem_unit si) mod 2 ^ 64 / 1024 / 1024)%N.

Definition get_system_info (si : SysInfo) : string :=
  let info := "{" +:+ nl in
  let info := info +:+ "  " +:+ key "platform" +:+ ": " +:+ key "Linux" +:+ "," +:+ nl in
  let info := info +:+ "  " +:+ key "processors" +:+ ": " +:+ pretty (nprocs si) +:+ "," +:+ nl in
  let info := info +:+ "  " +:+ key "total_memory" +:+ ": " +:+ pretty (total_memory si) +:+ "," +:+ nl in
  let info := info +:+ "  " +:+ key "uptime" +:+ ": " +:+ pretty (uptime si) +:+ nl in
  info +:+ "}".

(** ** [WebServer] *)

Module WebServer.

(** The fields of a [WebServer] but for the pointer to the
    [SystemMetrics] object, which the functions take as an argument.
    [server_thread] is [true] when the thread member is joinable;
    [server_threads] counts the threads that execute [run_server]. *)
Record state := mkState {
  running : bool;
  server_thread : bool;
  server_threads : nat;
  logger : list LogRecord
}.

(** The object right after [WebServer(&metrics)]. *)
Definition new : state :=
  {| running := false; server_thread := false; server_threads := 0; logger := [] |}.

Definition info (msg : string) (s : state) : state :=
  {| running := running s; server_thread := server_thread s;
     server_threads := server_threads s; logger := logger s ++ [LogInfo msg] |}.

(** [None] is [std::terminate], as in [start_monitoring]. *)
Definition start (port : Z) (s : state) : option state :=
  if running s then Some s
  else if server_thread s then None
  else Some (info ("Web server started on port " +:+ pretty port)
    {| running := true; server_thread := true;
       server_threads := S (server_threads s); logger := logger s |}).

(** [join] returns once the server thread has left [run_server], whose
    loop only sleeps and reads the flag. *)
Definition stop (s : state) : state :=
  let s := {| running := false; server_thread := server_thread s;
              server_threads := server_threads s; logger := logger s |} in
  let s :=
    if server_thread s then
      {| running := running s; server_thread := false;
         server_threads := pred (server_threads s); logger := logger s |}
    else s in
  info "Web server stopped" s.

Inductive call := Start (port : Z) | Stop.

Fixpoint run (cs : list call) (s : state) : option state :=
  match cs with
  | [] => Some s
  | Start port :: cs' =>
      match start port s with
      | Some s' => run cs' s'
      | None => None
      end
  | Stop :: cs' => run cs' (stop s)
  end.

(** One element of ["top_processes"], lines 477-483. *)
Definition process_entry (pf : Platform) (proc : ProcessInfo) : string :=
  "    {" +:+ nl
  +:+ "      " +:+ key "pid" +:+ ": " +:+ pretty (pid proc) +:+ "," +:+ nl
  +:+ "      " +:+ key "name" +:+ ": " +:+ dq +:+ name proc +:+ dq +:+ "," +:+ nl
  +:+ "      " +:+ key "cpu_percent" +:+ ": " +:+ show_fixed2 pf (cpu_percent proc)
  +:+ "," +:+ nl
  +:+ "      " +:+ key "memory_bytes" +:+ ": " +:+ pretty (memory_bytes proc)
  +:+ "," +:+ nl
  +:+ "      " +:+ key "status" +:+ ": " +:+ dq +:+ status proc +:+ dq +:+ nl
  +:+ "    }".

(** The loop of lines 475-486 from index [i] on, [rest] being the
    elements from [i]; [size] is [top_processes.size()]. *)
Fixpoint format_processes (pf : Platform) (size i : N) (rest : list ProcessInfo)
    (json : string) : string :=
  match rest with
  | [] => json
  | proc :: rest' =>
      let json := json +:+ process_entry pf proc in
      let json := if (i <? size_t_sub size 1)%N then json +:+ "," else json in
      format_processes pf size (i + 1)%N rest' (json +:+ nl)
  end.

Definition format_metrics (pf : Platform) (snapshot : MetricSnapshot) : string :=
  let json := "{" +:+ nl in
  let json := json +:+ "  " +:+ key "timestamp" +:+ ": "
                   +:+ pretty (milliseconds pf (timestamp snapshot)) +:+ "," +:+ nl in
  let json := json +:+ "  " +:+ key "cpu_usage" +:+ ": "
                   +:+ show_fixed2 pf (cpu_usage snapshot) +:+ "," +:+ nl in
  let json := json +:+ "  " +:+ key "memory_usage" +:+ ": "
                   +:+ show_fixed2 pf (memory_usage snapshot) +:+ "," +:+ nl in
  let json := json +:+ "  " +:+ key "disk_usage" +:+ ": "
                   +:+ show_fixed2 pf (disk_usage snapshot) +:+ "," +:+ nl in
  let json := json +:+ "  " +:+ key "network_rx" +:+ ": "
                   +:+ show_fixed2 pf (network_rx snapshot) +:+ "," +:+ nl in
  let json := json +:+ "  " +:+ key "network_tx" +:+ ": "
                   +:+ show_fixed2 pf (network_tx snapshot) +:+ "," +:+ nl in
  let json := json +:+ "  " +:+ key "top_processes" +:+ ": [" +:+ nl in
  let json := format_processes pf (N.of_nat (length (top_processes snapshot))) 0
                (top_processes snapshot) json in
  let json := json +:+ "  ]" +:+ nl in
  json +:+ "}".

(** One element of ["data"], lines 503-509. *)
Definition history_entry (pf : Platform) (snapshot : MetricSnapshot) : string :=
  "    {" +:+ nl
  +:+ "      " +:+ key "timestamp" +:+ ": "
  +:+ pretty (milliseconds pf (timestamp snapshot)) +:+ "," +:+ nl
  +:+ "      " +:+ key "cpu_usage" +:+ ": " +:+ show_fixed2 pf (cpu_usage snapshot)
  +:+ "," +:+ nl
  +:+ "      " +:+ key "memory_usage" +:+ ": " +:+ show_fixed2 pf (memory_usage snapshot)
  +:+ "," +:+ nl
  +:+ "      " +:+ key "disk_usage" +:+ ": " +:+ show_fixed2 pf (disk_usage snapshot)
  +:+ nl
  +:+ "    }".

(** The loop of lines 501-512 from index [i] on. *)
Fixpoint format_entries (pf : Platform) (size i : N) (rest : list MetricSnapshot)
    (json : string) : string :=
  match rest with
  | [] => json
  | snapshot :: rest' =>
      let json := json +:+ history_entry pf snapshot in
      let json := if (i <? size_t_sub size 1)%N then json +:+ "," else json in
      format_entries pf size (i + 1)%N rest' (json +:+ nl)
  end.

Definition format_history (pf : Platform) (history : list MetricSnapshot) : string :=
  let size := N.of_nat (length history) in
  let json := "{" +:+ nl in
  let json := json +:+ "  " +:+ key "data" +:+ ": [" +:+ nl in
  let json := format_entries pf size 0 history json in
  let json := json +:+ "  ]," +:+ nl in
  let json := json +:+ "  " +:+ key "count" +:+ ": " +:+ pretty size +:+ nl in
  json +:+ "}".

Definition health_body : string :=
  "{" +:+ key "status" +:+ ": " +:+ key "healthy" +:+ ", "
  +:+ key "service" +:+ ": " +:+ key "performance-monitor" +:+ "}".

Definition not_found_body : string :=
  "{" +:+ key "error" +:+ ": " +:+ key "Not found" +:+ "}".

(** What answering a request may read from outside the two objects. *)
Record RequestEnv := mkRequestEnv {
  platform : Platform;
  build_input : TickInput;
  sysinfo : SysInfo
}.

(** The response and the [SystemMetrics] object after the request. *)
Definition handle_request (env : RequestEnv) (path : string) (metrics : SystemMetrics)
    : string * SystemMetrics :=
  if String.eqb path "/health" then (health_body, metrics)
  else if String.eqb path "/metrics" then
    let '(snapshot, metrics) :=
      get_current_metrics (tick_now (build_input env)) (tick_sources (build_input env))
        (tick_indet (build_input env)) metrics in
    (format_metrics (platform env) snapshot, metrics)
  else if String.eqb path "/history" then
    let '(history, metrics) := get_history 100 metrics in
    (format_history (platform env) history, metrics)
  else if String.eqb path "/system" then (get_system_info (sysinfo env), metrics)
  else (not_found_body, metrics).

End WebServer.

(** ** [main] *)

(** How the process ends, or that it does not: [Serving] is the loop of
    lines 540-545, which has no exit. *)
Inductive main_result :=
| Returned (code : Z) (cerr : string)
| Terminated
| Serving (metrics : SystemMetrics) (server : WebServer.state)
    (logger : list LogRecord).

(** The implicit destructors run when an exception leaves the [try]
    block of [main]: destroying a joinable [std::thread] member calls
    [std::terminate].  [true] when the destructor returns. *)
Definition destroy_WebServer (s : WebServer.state) : bool :=
  negb (WebServer.server_thread s).
Definition destroy_SystemMetrics (st : SystemMetrics) : bool :=
  negb (monitoring_thread st).

(** [argv] includes the program name; [stoi] is [std::stoi], which
    throws on text it cannot convert. *)
Definition main (argv : list string) (stoi : string → outcome Z) : main_result :=
  let logger := [LogInfo "Starting Performance Monitor..."] in
  let metrics := new_SystemMetrics in
  let server := WebServer.new in
  match start_monitoring metrics with
  | None => Terminated
  | Some metrics =>
      let port :=
        if bool_decide (1 < length argv)
        then stoi (default EmptyString (argv !! 1))
        else Returns 9000%Z in
      match port with
      | Throws what =>
          if destroy_WebServer server && destroy_SystemMetrics metrics
          then Returned 1 ("Fatal error: " +:+ what +:+ nl)
          else Terminated
      | Returns port =>
          match WebServer.start port server with
          | None => Terminated
          | Some server =>
              Serving metrics server
                (logger ++ [LogInfo "Performance Monitor running. Press Ctrl+C to stop."])
          end
      end
  end.

(** The elements of a JSON array as the formatting loops are meant to
    write them: each on its lines, a comma after each but the last. *)
Fixpoint separated (elements : list string) : string :=
  match elements with
  | [] => EmptyString
  | e :: rest =>
      e +:+ (match rest with [] => nl | _ :: _ => "," +:+ nl end) +:+ separated rest
  end.

(** Invariant of the [WebServer] lifecycle. *)
Definition server_inv (s : WebServer.state) : Prop :=
  WebServer.server_thread s = WebServer.running s
  ∧ WebServer.server_threads s = (if WebServer.running s then 1 else 0).

(** A platform for the examples: doubles are not printed, a tick is a
    nanosecond. *)
Definition example_platform : Platform := mkPlatform (λ _, "?") 1000000.

Definition example_env : WebServer.RequestEnv :=
  WebServer.mkRequestEnv example_platform (tick_at 9) (mkSysInfo 4 4096 4096 60).

(** ** The readers for Linux *)

Module Linux.

(** *** [get_cpu_usage] *)

(** A value of type [unsigned long long] after an operation. *)
Definition ull (z : Z) : Z := z mod 2 ^ 64.

(** The conversion of an [unsigned long long] to [double]: the nearest
    binary64 number, ties to even. *)
Definition double_of_ull (z : Z) : float :=
  SF2Prim (binary_normalize prec emax z 0 false).

(** The four counters [iss >> cpu >> totalUser >> ...] has read from the
    first line of [/proc/stat]. *)
Record CpuTicks := mkCpuTicks {
  totalUser : Z;
  totalUserLow : Z;
  totalSys : Z;
  totalIdle : Z
}.

(** The function-local statics. *)
Record CpuStatics := mkCpuStatics {
  lastTotalUser : Z;
  lastTotalUserLow : Z;
  lastTotalSys : Z;
  lastTotalIdle : Z;
  first_call : bool
}.

(** The statics before the first call: zero-initialised counters. *)
Definition initial_statics : CpuStatics := mkCpuStatics 0 0 0 0 true.

Definition remember (t : CpuTicks) : CpuStatics :=
  mkCpuStatics (totalUser t) (totalUserLow t) (totalSys t) (totalIdle t) false.

Definition get_cpu_usage (t : CpuTicks) (s : CpuStatics) : float * CpuStatics :=
  if first_call s then (0%float, remember t)
  else
    let total :=
      ull (ull (ull (totalUser t - lastTotalUser s)
                + ull (totalUserLow t - lastTotalUserLow s))
           + ull (totalSys t - lastTotalSys s)) in
    let percent := double_of_ull total in
    let total := ull (total + ull (totalIdle t - lastTotalIdle s)) in
    let percent := PrimFloat.div percent (double_of_ull total) in
    let percent := PrimFloat.mul percent 100%float in
    (percent, remember t).

(** *** Text *)

(** [isdigit] and [isspace] in the C locale. *)
Definition isdigit (c : ascii) : bool :=
  match Ascii.is_nat c with Some _ => true | None => false end.

(** [s[0]], the terminating zero for an empty string. *)
Definition first_char (s : string) : ascii :=
  match s with
  | String c _ => c
  | EmptyString => "000"%char
  end.

Fixpoint skip_ws (s : string) : string :=
  match s with
  | String c s' => if Ascii.is_space c then skip_ws s' else s
  | EmptyString => EmptyString
  end.

(** The characters up to the next white space, and the rest. *)
Fixpoint read_word (s : string) : string * string :=
  match s with
  | String c s' =>
      if Ascii.is_space c then (EmptyString, s)
      else let '(w, rest) := read_word s' in (String c w, rest)
  | EmptyString => (EmptyString, EmptyString)
  end.

(** [stream >> word] for a [std::string]: the word read, empty when the
    stream holds none, and what is left of the stream. *)
Definition extract (stream : string) : string * string :=
  read_word (skip_ws stream).

(** [std::getline]: the characters before the first line feed. *)
Fixpoint first_line (s : string) : string :=
  match s with
  | String c s' => if Ascii.eqb c "010"%char then EmptyString else String c (first_line s')
  | EmptyString => EmptyString
  end.

(** The value of the leading decimal digits of [s] after [acc], and
    whether there was a digit. *)
Fixpoint digits (acc : N) (seen : bool) (s : string) : N * bool :=
  match s with
  | String c s' =>
      match Ascii.is_nat c with
      | Some d => digits (10 * acc + N.of_nat d) true s'
      | None => (acc, seen)
      end
  | EmptyString => (acc, seen)
  end.

(** [std::stoul] in base 10: white space, an optional sign, digits.  No
    digit is [std::invalid_argument], a value that does not fit
    [unsigned long] is [std::out_of_range]; a minus sign negates the
    value as an [unsigned long]. *)
Definition stoul (s : string) : outcome N :=
  let s := skip_ws s in
  let '(negative, s) :=
    match s with
    | String "-"%char s' => (true, s')
    | String "+"%char s' => (false, s')
    | _ => (false, s)
    end in
  let '(v, seen) := digits 0 false s in
  if negb seen then Throws "stoul"
  else if (2 ^ 64 <=? v)%N then Throws "stoul"
  else Returns (if negative then Z.to_N ((- Z.of_N v) mod 2 ^ 64) else v).

(** [s.substr(pos, n)]: [std::out_of_range] when [pos] is beyond the
    end, with the text libstdc++ gives it, else the characters from
    [pos], [n] of them or as many as there are. *)
Definition substr (s : string) (pos n : N) : outcome string :=
  let size := N.of_nat (String.length s) in
  if (size <? pos)%N then
    Throws ("basic_string::substr: __pos (which is " +:+ pretty pos
            +:+ ") > this->size() (which is " +:+ pretty size +:+ ")")
  else Returns (String.substring (N.to_nat pos)
                  (N.to_nat (N.min n (size - pos))) s).

(** *** [get_top_processes] *)

(** What the function reads: the names [readdir] returns for [/proc],
    in its order, or [None] when [opendir] fails; and the content of a
    file when it can be opened. *)
Record ProcFs := mkProcFs {
  proc_entries : option (list string);
  open_file : string → option string
}.

(** The [while] loop of lines 380-404 over the entries still to come. *)
Fixpoint scan_proc (fs : ProcFs) (count : N) (entries : list string)
    (processes : list ProcessInfo) : outcome (list ProcessInfo) :=
  match entries with
  | [] => Returns processes
  | d_name :: entries' =>
      if negb (N.of_nat (length processes) <? count)%N then Returns processes
      else if negb (isdigit (first_char d_name)) then
        scan_proc fs count entries' processes
      else
        match stoul d_name with
        | Throws what => Throws what
        | Returns v =>
            let pid := (v mod 2 ^ 32)%N in
            match open_file fs ("/proc/" +:+ d_name +:+ "/stat") with
            | None => scan_proc fs count entries' processes
            | Some content =>
                let line := first_line content in
                let '(pid_str, iss) := extract line in
                let '(comm, iss) := extract iss in
                match substr comm 1 (size_t_sub (N.of_nat (String.length comm)) 2) with
                | Throws what => Throws what
                | Returns name =>
                    scan_proc fs count entries'
                      (processes ++ [mkProcessInfo pid name 0 0 "running"])
                end
            end
        end
  end.

Definition get_top_processes (fs : ProcFs) (count : N) : outcome (list ProcessInfo) :=
  match proc_entries fs with
  | None => Returns []
  | Some entries => scan_proc fs count entries []
  end.

End Linux.

(** A string free of white space. *)
Fixpoint no_space (s : string) : bool :=
  match s with
  | String c s' => negb (Ascii.is_space c) && no_space s'
  | EmptyString => true
  end.

(** The line of [/proc/<pid>/stat] for a process called [name]:
    the id, the name between parentheses, and the other fields. *)
Definition stat_line (pid_str name fields : string) : string :=
  pid_str +:+ " (" +:+ name +:+ ") " +:+ fields.

(** A [/proc] with the entries [self] and [42], the latter a process
    called [bash]. *)
Definition example_proc : Linux.ProcFs :=
  Linux.mkProcFs (Some ["self"; "42"])
    (λ path, if String.eqb path "/proc/42/stat"
             then Some (stat_line "42" "bash" ("S 1 42" +:+ nl))
             else None).

(** White space other than a line feed. *)
Fixpoint blanks (s : string) : bool :=
  match s with
  | String c s' =>
      Ascii.is_space c && negb (Ascii.eqb c "010"%char) && blanks s'
  | EmptyString => true
  end.

(** The loop records an entry only if its name begins with a digit and
    its stat file opens. *)
Definition eligible (fs : Linux.ProcFs) (d_name : string) : bool :=
  Linux.isdigit (Linux.first_char d_name)
  && match Linux.open_file fs ("/proc/" +:+ d_name +:+ "/stat") with
     | Some _ => true
     | None => false
     end.

(** The second word of the first line of a stat file. *)
Definition second_word (content : string) : string :=
  (Linux.extract (Linux.extract (Linux.first_line content)).2).1.

(** [p] is what the loop records for the entry [d_name]: the id read
    from the name of the entry, reduced to 32 bits, and as name the
    second word of its stat line without its first and last character. *)
Definition recorded_from (fs : Linux.ProcFs) (d_name : string) (p : ProcessInfo)
    : Prop :=
  ∃ (v : N) (content nm : string),
    Linux.stoul d_name = Returns v
    ∧ Linux.open_file fs ("/proc/" +:+ d_name +:+ "/stat") = Some content
    ∧ Linux.substr (second_word content) 1
        (size_t_sub (N.of_nat (String.length (second_word content))) 2)
      = Returns nm
    ∧ p = mkProcessInfo (v mod 2 ^ 32) nm 0 0 "running".

(** A [/proc] where process 7 is called [Web Content] and the stat
    file of process 8 holds one word and a line feed. *)
Definition awkward_proc : Linux.ProcFs :=
  Linux.mkProcFs (Some ["7"; "8"])
    (λ path, if String.eqb path "/proc/7/stat"
             then Some (stat_line "7" ("Web" +:+ " " +:+ "Content") ("S 1 7" +:+ nl))
             else if String.eqb path "/proc/8/stat" then Some ("8" +:+ nl)
             else None).

(** A [/proc] that lists process 42 before process 7, between entries
    that are not processes or cannot be read. *)
Definition ordered_proc : Linux.ProcFs :=
  Linux.mkProcFs (Some ["self"; "42"; "99"; "7"; "uptime"])
    (λ path, if String.eqb path "/proc/42/stat"
             then Some (stat_line "42" "bash" ("S 1 42" +:+ nl))
             else if String.eqb path "/proc/7/stat"
             then Some (stat_line "7" "init" ("S 0 7" +:+ nl))
             else None).

(** ** The network reader for Linux *)

Module Net.

(** An input string stream: what is left to read, and whether the
    stream is still [good()].  End of input reached while reading sets
    [eofbit], a failed extraction sets [failbit]; either way every later
    extraction leaves its target as it was. *)
Record istream := mkIstream {
  buffer : string;
  good : bool
}.

Definition not_empty (s : string) : bool :=
  match s with EmptyString => false | String _ _ => true end.

(** [iss >> word] for a [std::string]. *)
Definition extract_word (cur : string) (s : istream) : string * istream :=
  if negb (good s) then (cur, s)
  else
    match Linux.skip_ws (buffer s) with
    | EmptyString => (cur, mkIstream EmptyString false)
    | b =>
        let '(w, rest) := Linux.read_word b in
        (w, mkIstream rest (not_empty rest))
    end.

(** The leading decimal digits of [s]: their value after [acc], whether
    there was one, and what follows them. *)
Fixpoint digits_rest (acc : N) (seen : bool) (s : string) : N * bool * string :=
  match s with
  | String c s' =>
      match Ascii.is_nat c with
      | Some d => digits_rest (10 * acc + N.of_nat d) true s'
      | None => (acc, seen, s)
      end
  | EmptyString => (acc, seen, EmptyString)
  end.

(** [iss >> value] for an [unsigned long long]: white space, an
    optional sign, digits.  Without a digit the value becomes 0, beyond
    the range it becomes the largest value; both fail the stream. *)
Definition extract_ull (cur : Z) (s : istream) : Z * istream :=
  if negb (good s) then (cur, s)
  else
    match Linux.skip_ws (buffer s) with
    | EmptyString => (cur, mkIstream EmptyString false)
    | b =>
        let '(negative, b) :=
          match b with
          | String "-"%char b' => (true, b')
          | String "+"%char b' => (false, b')
          | _ => (false, b)
          end in
        let '(v, seen, rest) := digits_rest 0 false b in
        if negb seen then (0%Z, mkIstream rest false)
        else if (2 ^ 64 <=? v)%N then ((2 ^ 64 - 1)%Z, mkIstream rest false)
        else ((if negative then (- Z.of_N v) mod 2 ^ 64 else Z.of_N v)%Z,
              mkIstream rest (not_empty rest))
    end.

(** [s.find(':')]. *)
Fixpoint find_colon (s : string) : option nat :=
  match s with
  | String c s' => if Ascii.eqb c ":"%char then Some 0 else S <$> find_colon s'
  | EmptyString => None
  end.

(** A line [std::getline] has read from [/proc/net/dev], with what the
    uninitialised locals [rx] and [tx] hold in its round of the loop. *)
Record NetLine := mkNetLine {
  line_text : string;
  ind_rx : Z;
  ind_tx : Z
}.

(** The body of the [while] loop, lines 351-367. *)
Definition read_line (totals : float * float) (l : NetLine) : float * float :=
  let iss := mkIstream (line_text l) true in
  let '(interface, iss) := extract_word EmptyString iss in
  let interface :=
    match find_colon interface with
    | Some k => String.substring 0 k interface
    | None => interface
    end in
  if negb (String.eqb interface "lo") then
    let '(rx, iss) := extract_ull (ind_rx l) iss in
    let '(rx, iss) := Nat.iter 7 (λ '(rx, iss), extract_ull rx iss) (rx, iss) in
    let '(tx, iss) := extract_ull (ind_tx l) iss in
    (PrimFloat.add totals.1 (Linux.double_of_ull rx),
     PrimFloat.add totals.2 (Linux.double_of_ull tx))
  else totals.

(** [lines] are the lines of the file, none when it cannot be opened;
    the first two are the header. *)
Definition get_network_usage (lines : list NetLine) : float * float :=
  foldl read_line (0%float, 0%float) (drop 2 lines).

End Net.

(** The counters of a line of [/proc/net/dev] as the kernel prints
    them after the colon: each with the blanks that pad it on its
    left. *)
Fixpoint counters_text (counters : list (string * N)) : string :=
  match counters with
  | [] => EmptyString
  | (pad, n) :: counters' => pad +:+ pretty n +:+ counters_text counters'
  end.

(** An interface of the file: the blanks that right-align its name,
    its name, and its counters with their padding; receive bytes come
    first, receive multicast eighth, transmit bytes ninth. *)
Record Interface := mkInterface {
  if_indent : string;
  if_name : string;
  if_counters : list (string * N)
}.

Definition dev_line (i : Interface) (ind_rx ind_tx : Z) : Net.NetLine :=
  Net.mkNetLine
    (if_indent i +:+ if_name i +:+ ":" +:+ counters_text (if_counters i))
    ind_rx ind_tx.

Definition no_colon (s : string) : bool :=
  match Net.find_colon s with None => true | Some _ => false end.

(** What makes a line well formed: a name without white space or colon,
    and at least ten counters that fit 64 bits, at least one blank
    before each. *)
Definition well_formed (i : Interface) : Prop :=
  blanks (if_indent i) = true
  ∧ if_name i ≠ EmptyString
  ∧ no_space (if_name i) = true
  ∧ no_colon (if_name i) = true
  ∧ 10 ≤ length (if_counters i)
  ∧ Forall (λ c : string * N,
              c.1 ≠ EmptyString ∧ blanks c.1 = true ∧ (c.2 < 2 ^ 64)%N)
      (if_counters i).

(** The counter at position [k], zero when there is none. *)
Definition counter (k : nat) (i : Interface) : Z :=
  Z.of_N (default 0%N (snd <$> if_counters i !! k)).

(** Two interfaces as the kernel prints them, names right-aligned and
    counters padded. *)
Definition example_lo : Interface :=
  mkInterface "    " "lo"
    [("     ", 900); ("       ", 9); ("    ", 0); ("    ", 0); ("    ", 0);
     ("     ", 0); ("          ", 0); ("         ", 0); ("      ", 900);
     ("       ", 9); ("    ", 0); ("    ", 0); ("    ", 0); ("     ", 0);
     ("       ", 0); ("          ", 0)]%N.
Definition example_eth0 : Interface :=
  mkInterface "  " "eth0"
    [("    ", 5000); ("      ", 50); ("    ", 0); ("    ", 0); ("    ", 0);
     ("     ", 0); ("          ", 0); ("         ", 3); ("     ", 7000);
     ("      ", 70); ("    ", 0); ("    ", 0); ("    ", 0); ("     ", 0);
     ("       ", 0); ("          ", 0)]%N.

Definition example_dev : list Net.NetLine :=
  [Net.mkNetLine "Inter-|   Receive" 0 0; Net.mkNetLine " face |bytes" 0 0;
   dev_line example_lo 0 0; dev_line example_eth0 0 0].

(** * Properties *)

(** ** The queue and the read loop *)

Lemma queue_pop_drop (q : list MetricSnapshot) : queue_pop q = drop 1 q.
Proof. by destruct q. Qed.

Lemma queue_size_le (q : list MetricSnapshot) (cap : N) :
  (cap <? queue_size q)%N = bool_decide (N.to_nat cap < length q).
Proof.
  unfold queue_size. case_bool_decide; [apply N.ltb_lt | apply N.ltb_ge]; lia.
Qed.

Lemma get_history_loop_take (temp : list MetricSnapshot) :
  ∀ (i items : N) (history : list MetricSnapshot),
    get_history_loop i items temp history
    = history ++ take (N.to_nat (items - i)) temp.
Proof.
  induction temp as [|front temp IH]; intros i items history; simpl.
  - by rewrite take_nil, app_nil_r.
  - destruct (N.ltb_spec i items) as [Hlt|Hge].
    + rewrite IH, <- app_assoc. simpl.
      replace (N.to_nat (items - i)) with (S (N.to_nat (items - (i + 1)))) by lia.
      done.
    + replace (N.to_nat (items - i)) with 0 by lia.
      by rewrite app_nil_r.
Qed.

Lemma history_items_zero (size : N) : history_items 0 size = size.
Proof. done. Qed.

Lemma history_items_pos (count size : N) :
  (0 < count)%N → history_items count size = N.min count size.
Proof.
  intros Hpos. unfold history_items.
  destruct (N.eqb_spec count 0) as [->|_]; [lia|]. simpl.
  destruct (N.ltb_spec size count); lia.
Qed.

Lemma history_view_take (count : N) (q : list MetricSnapshot) :
  history_view count q = take (N.to_nat (history_items count (queue_size q))) q.
Proof.
  unfold history_view, get_history. simpl.
  by rewrite get_history_loop_take, N.sub_0_r.
Qed.

Lemma get_history_view (count : N) (st : SystemMetrics) :
  (get_history count st).1 = history_view count (metric_history st).
Proof. done. Qed.

Lemma history_view_all (q : list MetricSnapshot) : history_view 0 q = q.
Proof.
  rewrite history_view_take, history_items_zero. unfold queue_size.
  rewrite Nat2N.id. apply firstn_all.
Qed.

Lemma history_view_pos (count : N) (q : list MetricSnapshot) :
  (0 < count)%N → history_view count q = take (N.to_nat count) q.
Proof.
  intros Hpos. rewrite history_view_take, history_items_pos by done.
  unfold queue_size.
  destruct (N.le_ge_cases count (N.of_nat (length q))) as [Hle|Hge].
  - by rewrite N.min_l.
  - rewrite N.min_r, Nat2N.id by done.
    rewrite !take_ge; [done | lia | lia].
Qed.

(** ** Appending with eviction *)

Lemma history_append_drop (cap : N) (q : list MetricSnapshot) (s : MetricSnapshot) :
  length q ≤ N.to_nat cap →
  history_append cap q s = drop (S (length q) - N.to_nat cap) (q ++ [s]).
Proof.
  intros Hle. unfold history_append, evict_overflow, queue_push.
  rewrite queue_size_le, queue_pop_drop, length_app. simpl.
  case_bool_decide as Hlt.
  - by replace (S (length q) - N.to_nat cap) with 1 by lia.
  - by replace (S (length q) - N.to_nat cap) with 0 by lia.
Qed.

Lemma run_appends_snoc (cap : N) (l : list MetricSnapshot) (s : MetricSnapshot) :
  run_appends cap (l ++ [s]) = history_append cap (run_appends cap l) s.
Proof. unfold run_appends. by rewrite foldl_app. Qed.

Lemma run_appends_drop (cap : N) (l : list MetricSnapshot) :
  run_appends cap l = drop (length l - N.to_nat cap) l.
Proof.
  induction l as [|s l IH] using rev_ind; [done|].
  rewrite run_appends_snoc, IH.
  rewrite history_append_drop by (rewrite length_drop; lia).
  rewrite length_drop, length_app. simpl.
  rewrite <- drop_app_le by lia. rewrite drop_drop. f_equal. lia.
Qed.

Lemma run_appends_length (cap : N) (l : list MetricSnapshot) :
  length (run_appends cap l) = length l `min` N.to_nat cap.
Proof. rewrite run_appends_drop, length_drop. lia. Qed.

(** ** The loop thread *)

Lemma get_current_metrics_snapshot (inp : TickInput) (st : SystemMetrics) :
  (get_current_metrics (tick_now inp) (tick_sources inp) (tick_indet inp) st).1
  = tick_snapshot inp.
Proof.
  unfold tick_snapshot, get_current_metrics.
  by destruct (collect _ _) as [[?|?] ?].
Qed.

Lemma get_current_metrics_history (now : Z) (src : MetricSource) (i : Indeterminate)
    (st : SystemMetrics) :
  metric_history (get_current_metrics now src i st).2 = metric_history st.
Proof.
  unfold get_current_metrics. by destruct (collect _ _) as [[?|?] ?].
Qed.

Lemma warn_if_high_history (prefix : string) (v : float) (st : SystemMetrics) :
  metric_history (warn_if_high prefix v st) = metric_history st.
Proof. unfold warn_if_high. by destruct (PrimFloat.ltb _ _). Qed.

Lemma monitor_tick_history (inp : TickInput) (st : SystemMetrics) :
  metric_history (monitor_tick inp st)
  = history_append MAX_HISTORY_SIZE (metric_history st) (tick_snapshot inp).
Proof.
  unfold monitor_tick.
  pose proof (get_current_metrics_snapshot inp st) as Hs.
  pose proof (get_current_metrics_history (tick_now inp) (tick_sources inp)
                (tick_indet inp) st) as Hh.
  destruct (get_current_metrics _ _ _ st) as [snapshot st1]. simpl in *.
  rewrite !warn_if_high_history. simpl. by rewrite Hs, Hh.
Qed.

Lemma monitor_loop_snoc (inputs : list TickInput) (inp : TickInput) (st : SystemMetrics) :
  monitor_loop (inputs ++ [inp]) st = monitor_tick inp (monitor_loop inputs st).
Proof. unfold monitor_loop. by rewrite foldl_app. Qed.

Lemma monitor_loop_history (inputs : list TickInput) :
  metric_history (monitor_loop inputs new_SystemMetrics)
  = run_appends MAX_HISTORY_SIZE (tick_snapshot <$> inputs).
Proof.
  induction inputs as [|inp inputs IH] using rev_ind; [done|].
  rewrite monitor_loop_snoc, monitor_tick_history, IH, fmap_app. simpl.
  by rewrite run_appends_snoc.
Qed.

Lemma tick_snapshot_timestamp (inp : TickInput) :
  timestamp (tick_snapshot inp) = tick_now inp.
Proof.
  unfold tick_snapshot, get_current_metrics.
  destruct inp as [now [cpu mem disk net top] i]. simpl.
  unfold collect, mbind, Build_bind, call, assign. simpl.
  destruct cpu; [|done]. destruct mem; [|done]. destruct disk; [|done].
  destruct net; [|done]. simpl. by destruct (top _).
Qed.

(** C1: for every sequence of appends to an initially empty history, by
    the loop thread or of arbitrary snapshots, the size after the last
    append (hence after every append, each prefix being such a sequence)
    is at most [MAX_HISTORY_SIZE = 1000] and equals the minimum of the
    number of appends and 1000. *)
Theorem history_size_bounded (l : list MetricSnapshot) (inputs : list TickInput) :
  let q := run_appends MAX_HISTORY_SIZE l in
  let h := metric_history (monitor_loop inputs new_SystemMetrics) in
  ((queue_size q ≤ MAX_HISTORY_SIZE)%N
   ∧ queue_size q = N.min (N.of_nat (length l)) 1000)
  ∧ ((queue_size h ≤ MAX_HISTORY_SIZE)%N
     ∧ queue_size h = N.min (N.of_nat (length inputs)) 1000).
Proof.
  simpl. rewrite monitor_loop_history. unfold queue_size.
  rewrite !run_appends_length, length_fmap. unfold MAX_HISTORY_SIZE. lia.
Qed.

(** C2: appending [cap + 1] snapshots to an empty history of capacity
    [cap] leaves exactly the last [cap] of them in order, the first one
    and only it being evicted, and [get_history(0)] returns them. *)
Theorem fifo_eviction (cap : N) (l : list MetricSnapshot)
    (Hlen : length l = S (N.to_nat cap)) :
  run_appends cap l = drop 1 l
  ∧ (get_history 0 (holding (run_appends cap l))).1 = drop 1 l.
Proof.
  rewrite get_history_view. simpl. rewrite history_view_all, run_appends_drop.
  by replace (length l - N.to_nat cap) with 1 by lia.
Qed.

(** C2, the scenario of the specification: capacity 3 and timestamps
    1 < 2 < 3 < 4 give the history [2; 3; 4]. *)
Lemma fifo_eviction_example :
  let l := snapshot_at <$> [1; 2; 3; 4]%Z in
  length l = S (N.to_nat 3)
  ∧ timestamp <$> (get_history 0 (holding (run_appends 3 l))).1 = [2; 3; 4]%Z.
Proof.
  cbv zeta. split; [reflexivity|].
  destruct (fifo_eviction 3 (snapshot_at <$> [1; 2; 3; 4]%Z)) as [_ H];
    [reflexivity|].
  rewrite H. reflexivity.
Defined.

(** C3 as stated fails: on a history holding the timestamps [1; 2; 3],
    [get_history(2)] returns the two oldest entries [1; 2], not the two
    most recently inserted ones [2; 3]. *)
Lemma history_recent_counterexample :
  let q := snapshot_at <$> [1; 2; 3]%Z in
  (get_history 2 (holding q)).1 = snapshot_at <$> [1; 2]%Z
  ∧ (get_history 2 (holding q)).1 ≠ drop (length q - 2) q.
Proof. simpl. split; [reflexivity|]. vm_compute. discriminate. Qed.

(** C3 amended: for a history of [m] entries and [0 < n < m],
    [get_history(n)] returns the [n] oldest entries, oldest first. *)
Theorem history_oldest_first (n : N) (st : SystemMetrics)
    (Hpos : (0 < n)%N) (Hlt : (n < queue_size (metric_history st))%N) :
  (get_history n st).1 = take (N.to_nat n) (metric_history st)
  ∧ queue_size (get_history n st).1 = n.
Proof.
  rewrite get_history_view, history_view_pos by done. split; [done|].
  unfold queue_size in *. rewrite length_take. lia.
Qed.

(** C3 amended, on the scenario of the specification. *)
Lemma history_oldest_first_example :
  let st := holding (snapshot_at <$> [1; 2; 3]%Z) in
  ((0 < 2)%N ∧ (2 < queue_size (metric_history st))%N)
  ∧ timestamp <$> (get_history 2 st).1 = [1; 2]%Z.
Proof.
  cbv zeta. split; [split; reflexivity|].
  destruct (history_oldest_first 2 (holding (snapshot_at <$> [1; 2; 3]%Z)))
    as [H _]; [reflexivity | reflexivity |].
  rewrite H. reflexivity.
Defined.

(** C10: [get_history(0)] returns the stored queue, and for [n > 0]
    [get_history(n)] returns its first [min n size] entries, the oldest
    ones: it equals the first [min n size] entries of [get_history(0)],
    it is a prefix of the stored queue, and neither query changes the
    object. *)
Theorem history_prefix_of_all (n : N) (st : SystemMetrics) (Hpos : (0 < n)%N) :
  let k := N.to_nat (N.min n (queue_size (metric_history st))) in
  (get_history 0 st).1 = metric_history st
  ∧ (get_history n st).1 = take k (metric_history st)
  ∧ (get_history n st).1 = take k (get_history 0 st).1
  ∧ (get_history n st).1 `prefix_of` (get_history 0 st).1
  ∧ (get_history n st).2 = st
  ∧ (get_history 0 st).2 = st.
Proof.
  cbv zeta. rewrite !get_history_view, history_view_all, history_view_take.
  rewrite history_items_pos by done.
  repeat split; try done. apply prefix_take.
Qed.

(** C10 on a history of three entries and a count of two: the two
    oldest entries, a proper prefix. *)
Lemma history_prefix_of_all_example :
  let st := holding (snapshot_at <$> [1; 2; 3]%Z) in
  (0 < 2)%N
  ∧ (get_history 2 st).1 = snapshot_at <$> [1; 2]%Z
  ∧ (get_history 0 st).1 = snapshot_at <$> [1; 2; 3]%Z
  ∧ (get_history 2 st).2 = st.
Proof.
  cbv zeta. split; [reflexivity|].
  destruct (history_prefix_of_all 2 (holding (snapshot_at <$> [1; 2; 3]%Z)))
    as (H0 & H1 & _ & _ & H2 & _); [reflexivity|].
  rewrite H1, H0. split; [reflexivity|]. split; [reflexivity | exact H2].
Defined.

(** ** Order of the retained entries *)

Lemma Sorted_drop {A} (R : A → A → Prop) (k : nat) (l : list A) :
  Sorted R l → Sorted R (drop k l).
Proof.
  revert l. induction k as [|k IH]; intros l Hs; [by rewrite drop_0|].
  destruct l as [|x l]; simpl; [constructor|].
  apply IH. by apply Sorted_inv in Hs as [Hs _].
Qed.

Lemma tick_snapshot_timestamps (inputs : list TickInput) :
  timestamp <$> (tick_snapshot <$> inputs) = tick_now <$> inputs.
Proof.
  induction inputs as [|inp inputs IH]; [done|].
  rewrite !fmap_cons, tick_snapshot_timestamp. by f_equal.
Qed.

(** C6: after any number of rounds of the loop on a new object,
    [get_history(0)] returns every retained entry: the snapshots of the
    last [min rounds 1000] rounds in the order they were built; when the
    clock readings of the rounds are non-decreasing, so are the
    timestamps returned. *)
Theorem history_order_preserved (inputs : list TickInput)
    (Hclock : Sorted Z.le (tick_now <$> inputs)) :
  let st := monitor_loop inputs new_SystemMetrics in
  (get_history 0 st).1 = metric_history st
  ∧ (get_history 0 st).1
    = drop (length inputs - N.to_nat MAX_HISTORY_SIZE) (tick_snapshot <$> inputs)
  ∧ Sorted Z.le (timestamp <$> (get_history 0 st).1).
Proof.
  cbv zeta. rewrite get_history_view, history_view_all, monitor_loop_history.
  rewrite run_appends_drop, length_fmap. split; [done|]. split; [done|].
  rewrite fmap_drop, tick_snapshot_timestamps. by apply Sorted_drop.
Qed.

(** C6 on three rounds at clock readings 1, 2, 3. *)
Lemma history_order_preserved_example :
  let inputs := tick_at <$> [1; 2; 3]%Z in
  Sorted Z.le (tick_now <$> inputs)
  ∧ timestamp <$> (get_history 0 (monitor_loop inputs new_SystemMetrics)).1
    = [1; 2; 3]%Z.
Proof.
  cbv zeta.
  assert (Hclock : Sorted Z.le (tick_now <$> (tick_at <$> [1; 2; 3]%Z)))
    by (repeat constructor; simpl; lia).
  split; [exact Hclock|].
  destruct (history_order_preserved (tick_at <$> [1; 2; 3]%Z) Hclock)
    as (_ & H & _).
  rewrite H. reflexivity.
Defined.

(** ** The snapshot builder *)

(** C4 as stated fails: when the memory reader throws, the readers after
    it are not called; the disk reader would have answered 40 and the
    process reader one process, yet the snapshot has neither. *)
Lemma build_memory_failure_counterexample :
  let snap := (get_current_metrics 7 memory_fails zero_indet new_SystemMetrics).1 in
  (get_top_processes memory_fails 10 = Returns [init_process]
   ∧ top_processes snap ≠ [init_process])
  ∧ (get_disk_usage memory_fails = Returns 40%float
     ∧ disk_usage snap ≠ 40%float).
Proof.
  cbv zeta. split; (split; [reflexivity|]).
  - vm_compute. discriminate.
  - intros H. apply (f_equal (λ z, PrimFloat.eqb z 40)) in H.
    vm_compute in H. discriminate.
Qed.

Ltac run_collect :=
  unfold get_current_metrics, collect, collect_failed, mbind, Build_bind, call, assign;
  simpl.

(** C4 amended: the builder always returns a snapshot, stamped with the
    clock reading, and nothing is thrown to its caller.  When a reader
    throws, the fields of the readers called before it (in the order
    cpu, memory, disk, network, processes) carry what those readers
    answered; the field of the failing reader and of every later reader
    is left as default-initialised (indeterminate numbers, no process),
    and the builder logs the error. *)
Theorem build_contains_failure (now : Z) (src : MetricSource) (i : Indeterminate)
    (st : SystemMetrics) :
  let base := set_timestamp now (default_init i) in
  let r := get_current_metrics now src i st in
  timestamp r.1 = now
  ∧ (∀ what, get_cpu_usage src = Throws what →
       r = (base, collect_failed what st))
  ∧ (∀ cpu what,
       get_cpu_usage src = Returns cpu →
       get_memory_usage src = Throws what →
       r = (set_cpu_usage cpu base, collect_failed what st))
  ∧ (∀ cpu mem what,
       get_cpu_usage src = Returns cpu →
       get_memory_usage src = Returns mem →
       get_disk_usage src = Throws what →
       r = (set_memory_usage mem (set_cpu_usage cpu base), collect_failed what st))
  ∧ (∀ cpu mem disk what,
       get_cpu_usage src = Returns cpu →
       get_memory_usage src = Returns mem →
       get_disk_usage src = Returns disk →
       get_network_usage src = Throws what →
       r = (set_disk_usage disk (set_memory_usage mem (set_cpu_usage cpu base)),
            collect_failed what st))
  ∧ (∀ cpu mem disk net what,
       get_cpu_usage src = Returns cpu →
       get_memory_usage src = Returns mem →
       get_disk_usage src = Returns disk →
       get_network_usage src = Returns net →
       get_top_processes src 10 = Throws what →
       r = (mkMetricSnapshot now cpu mem disk net.1 net.2 [],
            collect_failed what st))
  ∧ (∀ cpu mem disk net top,
       get_cpu_usage src = Returns cpu →
       get_memory_usage src = Returns mem →
       get_disk_usage src = Returns disk →
       get_network_usage src = Returns net →
       get_top_processes src 10 = Returns top →
       r = (mkMetricSnapshot now cpu mem disk net.1 net.2 top, st)).
Proof.
  cbv zeta. split.
  - pose proof (tick_snapshot_timestamp (mkTickInput now src i)) as Ht.
    pose proof (get_current_metrics_snapshot (mkTickInput now src i) st) as Hs.
    simpl in Ht, Hs. by rewrite Hs.
  - repeat split; intros; run_collect;
      repeat match goal with H : _ = _ |- _ => rewrite H; clear H end; done.
Qed.

(** C4 amended, when the memory reader throws. *)
Lemma build_contains_failure_example :
  (get_cpu_usage memory_fails = Returns 12.5%float
   ∧ get_memory_usage memory_fails = Throws "sysinfo")
  ∧ get_current_metrics 7 memory_fails zero_indet new_SystemMetrics
    = (set_cpu_usage 12.5 (set_timestamp 7 (default_init zero_indet)),
       collect_failed "sysinfo" new_SystemMetrics).
Proof.
  split; [split; reflexivity|].
  destruct (build_contains_failure 7 memory_fails zero_indet new_SystemMetrics)
    as (_ & _ & H & _).
  apply H; reflexivity.
Defined.

(** ** The two statements of an append *)

(** C5 as stated fails: on a history already holding 1000 entries the
    append pushes first, and between its two statements the queue holds
    1001 entries. *)
Lemma append_transient_counterexample :
  queue_size full_history = MAX_HISTORY_SIZE
  ∧ ¬ Forall (λ q, (queue_size q ≤ MAX_HISTORY_SIZE)%N)
        (append_trace MAX_HISTORY_SIZE full_history (snapshot_at 1000)).
Proof.
  split; [reflexivity|]. intros H. apply Forall_cons in H as [H _].
  vm_compute in H. by apply H.
Qed.

(** C5 amended: on a history holding exactly [cap] entries the append
    first pushes the new entry, the queue then holding [cap + 1]
    entries, and then pops the oldest one, which leaves [cap] entries:
    the old ones but the first, followed by the new one. *)
Theorem append_pushes_then_evicts (cap : N) (q : list MetricSnapshot)
    (s : MetricSnapshot) (Hfull : queue_size q = cap) :
  append_trace cap q s = [q ++ [s]; drop 1 (q ++ [s])]
  ∧ queue_size (q ++ [s]) = (cap + 1)%N
  ∧ last (append_trace cap q s) = Some (history_append cap q s)
  ∧ history_append cap q s = drop 1 (q ++ [s])
  ∧ queue_size (history_append cap q s) = cap.
Proof.
  assert (Hev : evict_overflow cap (q ++ [s]) = drop 1 (q ++ [s])).
  { unfold evict_overflow. rewrite queue_size_le, queue_pop_drop, length_app.
    unfold queue_size in Hfull. simpl. by rewrite bool_decide_true by lia. }
  unfold append_trace, history_append, queue_push. rewrite Hev.
  unfold queue_size in *. rewrite length_drop, length_app. simpl.
  repeat split; try done; lia.
Qed.

(** C5 amended, on a history filled to [MAX_HISTORY_SIZE]. *)
Lemma append_pushes_then_evicts_example :
  queue_size full_history = MAX_HISTORY_SIZE
  ∧ queue_size (full_history ++ [snapshot_at 1000]) = 1001%N
  ∧ queue_size (history_append MAX_HISTORY_SIZE full_history (snapshot_at 1000))
    = MAX_HISTORY_SIZE.
Proof.
  split; [reflexivity|].
  destruct (append_pushes_then_evicts MAX_HISTORY_SIZE full_history (snapshot_at 1000))
    as (_ & H1 & _ & _ & H2); [reflexivity|].
  split; [exact H1 | exact H2].
Defined.

(** ** Counts that started out negative *)

Lemma size_t_of_int_negative (count : Z) :
  (- 2 ^ 63 ≤ count < 0)%Z → (2 ^ 63 ≤ size_t_of_int count)%N.
Proof.
  intros Hneg. unfold size_t_of_int.
  replace (count mod 2 ^ 64)%Z with (count + 2 ^ 64)%Z.
  - lia.
  - apply Z.mod_unique with (-1)%Z; lia.
Qed.

(** C8 as stated fails: [get_history] has no error to report; called
    with -1 it reads the queue and returns all of it. *)
Lemma negative_count_counterexample :
  let st := holding (snapshot_at <$> [1; 2]%Z) in
  get_history_call (-1) st = Returns (snapshot_at <$> [1; 2]%Z)
  ∧ ¬ ∃ what, get_history_call (-1) st = Throws what.
Proof.
  cbv zeta. split; [reflexivity|]. intros [what H]. discriminate H.
Qed.

(** C8 amended: the parameter is a [size_t]; a negative 64-bit count
    arrives as [count + 2^64], which exceeds the size of the queue, and
    the call returns every retained entry, throws nothing and leaves the
    object as it was. *)
Theorem negative_count_returns_all (count : Z) (st : SystemMetrics)
    (Hneg : (- 2 ^ 63 ≤ count < 0)%Z)
    (Hsize : (queue_size (metric_history st) < 2 ^ 63)%N) :
  get_history_call count st = Returns (metric_history st)
  ∧ (get_history (size_t_of_int count) st).2 = st.
Proof.
  split; [|done]. unfold get_history_call. f_equal.
  pose proof (size_t_of_int_negative count Hneg) as Hbig.
  rewrite get_history_view, history_view_take. unfold history_items.
  replace (queue_size (metric_history st) <? size_t_of_int count)%N with true
    by (symmetry; apply N.ltb_lt; lia).
  rewrite orb_true_r. unfold queue_size. rewrite Nat2N.id. apply firstn_all.
Qed.

(** C8 amended, for a count of -5. *)
Lemma negative_count_returns_all_example :
  let st := holding (snapshot_at <$> [1; 2]%Z) in
  ((- 2 ^ 63 ≤ -5 < 0)%Z ∧ (queue_size (metric_history st) < 2 ^ 63)%N)
  ∧ get_history_call (-5) st = Returns (snapshot_at <$> [1; 2]%Z).
Proof.
  cbv zeta. split; [split; [lia | reflexivity]|].
  destruct (negative_count_returns_all (-5) (holding (snapshot_at <$> [1; 2]%Z)))
    as [H _]; [lia | reflexivity |].
  exact H.
Defined.

(** ** Lifecycle *)

Lemma monitor_tick_lifecycle (inp : TickInput) (st : SystemMetrics) :
  monitoring (monitor_tick inp st) = monitoring st
  ∧ monitoring_thread (monitor_tick inp st) = monitoring_thread st
  ∧ loop_threads (monitor_tick inp st) = loop_threads st.
Proof.
  unfold monitor_tick, get_current_metrics, warn_if_high.
  destruct (collect _ _) as [[?|?] ?]; repeat destruct (PrimFloat.ltb _ _); done.
Qed.

Lemma lifecycle_inv_new : lifecycle_inv new_SystemMetrics.
Proof. done. Qed.

Lemma start_monitoring_inv (st : SystemMetrics) :
  lifecycle_inv st → ∃ st', start_monitoring st = Some st' ∧ lifecycle_inv st'.
Proof.
  intros [Hj Hn]. unfold start_monitoring.
  destruct (monitoring st) eqn:Hm.
  - exists st. split; [done|]. unfold lifecycle_inv. by rewrite Hm.
  - rewrite Hj. eexists. split; [done|]. unfold lifecycle_inv. simpl.
    by rewrite Hn.
Qed.

Lemma stop_monitoring_inv (inflight : option TickInput) (st : SystemMetrics) :
  lifecycle_inv st → lifecycle_inv (stop_monitoring inflight st).
Proof.
  intros [Hj Hn]. unfold stop_monitoring.
  destruct (monitoring st) eqn:Hm; simpl.
  - rewrite Hj. unfold lifecycle_inv. simpl.
    destruct inflight as [inp|]; simpl.
    + destruct (monitor_tick_lifecycle inp
        {| monitoring := false; monitoring_thread := true;
           loop_threads := loop_threads st; metric_history := metric_history st;
           logger := logger st |}) as (-> & _ & ->).
      simpl. by rewrite Hn.
    + by rewrite Hn.
  - unfold lifecycle_inv. by rewrite Hm.
Qed.

Lemma lifecycle_step_inv (st : SystemMetrics) (e : lifecycle_event) :
  lifecycle_inv st → ∃ st', lifecycle_step st e = Some st' ∧ lifecycle_inv st'.
Proof.
  intros Hinv. destruct e as [|inflight|inp]; simpl.
  - by apply start_monitoring_inv.
  - eexists. split; [done|]. by apply stop_monitoring_inv.
  - eexists. split; [done|]. destruct (monitoring st) eqn:Hm; [|done].
    destruct Hinv as [Hj Hn].
    destruct (monitor_tick_lifecycle inp st) as (H1 & H2 & H3).
    unfold lifecycle_inv. by rewrite H1, H2, H3.
Qed.

Lemma lifecycle_run_inv (es : list lifecycle_event) :
  ∀ st, lifecycle_inv st → ∃ st', lifecycle_run es st = Some st' ∧ lifecycle_inv st'.
Proof.
  induction es as [|e es IH]; intros st Hinv; simpl.
  - by exists st.
  - destruct (lifecycle_step_inv st e Hinv) as (st1 & -> & Hinv1).
    by apply IH.
Qed.

(** C7: whatever calls of [start_monitoring] and [stop_monitoring] and
    rounds of the loop came before, none of them ends in
    [std::terminate], and the object is either Running or Stopped.
    Running: a further [start_monitoring] returns with the object
    unchanged and exactly one thread runs the loop.  Stopped: a further
    [stop_monitoring] returns with the object unchanged, still Stopped,
    and no thread runs the loop. *)
Theorem lifecycle_idempotent (es : list lifecycle_event) :
  ∃ st, lifecycle_run es new_SystemMetrics = Some st
    ∧ match lifecycle_of st with
      | Running =>
          start_monitoring st = Some st
          ∧ lifecycle_run (es ++ [CallStart]) new_SystemMetrics = Some st
          ∧ loop_threads st = 1
      | Stopped =>
          (∀ inflight,
             stop_monitoring inflight st = st
             ∧ lifecycle_run (es ++ [CallStop inflight]) new_SystemMetrics = Some st)
          ∧ loop_threads st = 0
      end.
Proof.
  destruct (lifecycle_run_inv es _ lifecycle_inv_new) as (st & Hrun & Hj & Hn).
  assert (Hsnoc : ∀ e st', lifecycle_step st e = Some st' →
            lifecycle_run (es ++ [e]) new_SystemMetrics = Some st').
  { intros e st' He. revert Hrun. generalize new_SystemMetrics.
    induction es as [|e0 es IH]; intros st0 Hrun; simpl in *.
    - injection Hrun as ->. by rewrite He.
    - destruct (lifecycle_step st0 e0); [by apply IH | done]. }
  exists st. split; [done|]. unfold lifecycle_of.
  destruct (monitoring st) eqn:Hm.
  - assert (Hs : start_monitoring st = Some st)
      by (unfold start_monitoring; by rewrite Hm).
    split; [done|]. split; [by apply Hsnoc | done].
  - split; [|done]. intros inflight.
    assert (Hs : stop_monitoring inflight st = st)
      by (unfold stop_monitoring; by rewrite Hm).
    split; [done|]. apply Hsnoc. simpl. by rewrite Hs.
Qed.

(** ** The loop thread and the callers of [get_history] *)

Lemma reader_inv_seen (seen : list World) (w' : World) (m : option thread_id)
    (sh : list MetricSnapshot) (r : nat) (pc : reader_pc) :
  reader_inv seen m sh r pc → readers w' !! r = Some pc →
  reader_inv (seen ++ [w']) m sh r pc.
Proof.
  destruct pc as [| | | |count result]; simpl; try done.
  intros (before & w0 & after & committed & pc0 & -> & Hrest) Hl.
  exists before, w0, (after ++ [w']), committed, pc0.
  split; [by rewrite <- app_assoc|].
  destruct Hrest as (? & ? & ? & ? & ? & ? & ? & Hafter).
  repeat (split; [done|]). apply Forall_app. split; [done|]. by constructor.
Qed.

(** A caller that does not own the mutex holds nothing that depends on
    the mutex or on the shared queue. *)
Lemma reader_inv_unlocked (seen : list World) (m m' : option thread_id)
    (sh sh' : list MetricSnapshot) (r : nat) (pc : reader_pc) :
  reader_inv seen m sh r pc → m ≠ Some (Reader r) → reader_inv seen m' sh' r pc.
Proof. destruct pc; simpl; try done; by intros [? _] ?. Qed.

(** While the loop thread does not own the mutex it is between two
    appends and the shared queue is the result of the complete ones. *)
Lemma writer_inv_unlocked (committed : list MetricSnapshot) (m m' : option thread_id)
    (sh : list MetricSnapshot) (pc : writer_pc) :
  writer_inv committed m sh pc → m ≠ Some Writer →
  writer_inv committed m' sh pc
  ∧ sh = run_appends MAX_HISTORY_SIZE committed
  ∧ match pc with WIdle | WBuilt _ => True | _ => False end.
Proof. destruct pc; simpl; try done; by intros [? _] ?. Qed.

Lemma world_inv_init : world_inv [init_world] init_world.
Proof.
  split; [by exists [] |]. intros r pc Hr. simpl in Hr.
  by rewrite lookup_empty in Hr.
Qed.

Lemma writer_step_inv (seen : list World) (w w' : World) (inp : TickInput) :
  world_inv seen w → writer_step inp w = Some w' → world_inv (seen ++ [w']) w'.
Proof.
  intros [[committed Hw] Hr] Hstep. unfold writer_step in Hstep.
  destruct (writer w) as [|s|s|s|s] eqn:Hpc; simpl in Hw.
  - injection Hstep as <-. split; [by exists committed|].
    intros r pc Hl. apply reader_inv_seen; [by apply Hr | done].
  - destruct (data_mutex w) eqn:Hm; [done|]. injection Hstep as <-.
    split; [by exists committed|]. intros r pc Hl.
    apply reader_inv_seen; [|done].
    by eapply reader_inv_unlocked; [by apply Hr|].
  - destruct Hw as [Hm Hsh]. injection Hstep as <-.
    split; [exists committed; simpl; by rewrite Hsh|]. intros r pc Hl.
    apply reader_inv_seen; [|done].
    eapply reader_inv_unlocked; [by apply Hr|]. by rewrite Hm.
  - destruct Hw as [Hm Hsh]. injection Hstep as <-.
    split; [exists committed; simpl; by rewrite Hsh|]. intros r pc Hl.
    apply reader_inv_seen; [|done].
    eapply reader_inv_unlocked; [by apply Hr|]. by rewrite Hm.
  - destruct Hw as [Hm Hsh]. injection Hstep as <-.
    split; [exists (committed ++ [s]); simpl; by rewrite run_appends_snoc|].
    intros r pc Hl. apply reader_inv_seen; [|done].
    eapply reader_inv_unlocked; [by apply Hr|]. by rewrite Hm.
Qed.

Lemma reader_call_inv (seen : list World) (w w' : World) (r : nat) (count : N) :
  world_inv seen w → reader_call r count w = Some w' → world_inv (seen ++ [w']) w'.
Proof.
  intros [Hw Hr] Hstep. unfold reader_call in Hstep.
  assert (w' = mkWorld (data_mutex w) (shared_history w) (writer w)
                 (<[r := RCalled count]> (readers w))) as ->.
  { destruct (readers w !! r) as [[]|]; by simplify_eq. }
  split; [done|]. intros r' pc Hl. pose proof Hl as Hl'. simpl in Hl.
  apply lookup_insert_Some in Hl as [[<- <-]|[Hne Hl]]; [done|].
  apply reader_inv_seen; [by apply Hr | done].
Qed.

(** The readers other than [r] after [r] made a statement. *)
Lemma other_readers_inv (seen : list World) (w w' : World) (r : nat)
    (pc : reader_pc) :
  (∀ r' pc', readers w !! r' = Some pc' →
     reader_inv seen (data_mutex w) (shared_history w) r' pc') →
  readers w' = <[r := pc]> (readers w) →
  (∀ r' pc', r' ≠ r →
     reader_inv seen (data_mutex w) (shared_history w) r' pc' →
     reader_inv seen (data_mutex w') (shared_history w') r' pc') →
  reader_inv (seen ++ [w']) (data_mutex w') (shared_history w') r pc →
  ∀ r' pc', readers w' !! r' = Some pc' →
    reader_inv (seen ++ [w']) (data_mutex w') (shared_history w') r' pc'.
Proof.
  intros Hr Hmap Hother Hself r' pc' Hl. pose proof Hl as Hl'.
  rewrite Hmap in Hl.
  apply lookup_insert_Some in Hl as [[<- <-]|[Hne Hl]]; [done|].
  apply reader_inv_seen; [|done]. apply Hother; [done|]. by apply Hr.
Qed.

Lemma reader_return_inv (seen : list World) (w : World) (r : nat) (count i items : N)
    (temp history : list MetricSnapshot) :
  world_inv (seen ++ [w]) w →
  readers w !! r = Some (RLoop count i items temp history) →
  get_history_loop i items temp history = history →
  world_inv ((seen ++ [w]) ++ [reader_return r count history w])
    (reader_return r count history w).
Proof.
  intros [[committed Hw] Hr] Hl Hexit.
  destruct (Hr _ _ Hl) as [Hm Hloop]. simpl in Hm, Hloop.
  destruct (writer_inv_unlocked committed _ None _ _ Hw) as (Hw' & Hsh & Hpc);
    [by rewrite Hm|].
  split; [by exists committed|].
  eapply (other_readers_inv (seen ++ [w]) w _ r); [exact Hr | reflexivity | |].
  - simpl. intros r' pc' Hne Hinv. eapply reader_inv_unlocked; [done|].
    rewrite Hm. congruence.
  - exists seen, w, [reader_return r count history w], committed,
      (RLoop count i items temp history).
    split; [by rewrite <- app_assoc|]. do 4 (split; [done|]).
    split; [unfold between_appends; by destruct (writer w)|].
    split; [done|]. split; [simpl; congruence|].
    constructor; [|done]. simpl. by rewrite lookup_insert_eq.
Qed.

Lemma reader_step_inv (seen : list World) (w w' : World) (r : nat) :
  world_inv (seen ++ [w]) w → reader_step r w = Some w' →
  world_inv ((seen ++ [w]) ++ [w']) w'.
Proof.
  intros Hinv Hstep. pose proof Hinv as [[committed Hw] Hr].
  unfold reader_step in Hstep.
  destruct (readers w !! r) as [[c|c|c items|c i items temp history|c res]|] eqn:Hl;
    [| | | |done|done].
  - assert (Hm : data_mutex w = None) by (by destruct (data_mutex w)).
    rewrite Hm in Hstep. injection Hstep as <-.
    destruct (writer_inv_unlocked committed _ (Some (Reader r)) _ _ Hw) as (Hw' & _);
      [by rewrite Hm|].
    split; [by exists committed|].
    eapply (other_readers_inv (seen ++ [w]) w _ r);
      [exact Hr | reflexivity | | done].
    simpl. intros r' pc' Hne Hinv'. eapply reader_inv_unlocked; [done|].
    by rewrite Hm.
  - injection Hstep as <-. pose proof (Hr _ _ Hl) as Hm. simpl in Hm.
    split; [by exists committed|].
    eapply (other_readers_inv (seen ++ [w]) w _ r);
      [exact Hr | reflexivity | done | done].
  - injection Hstep as <-. pose proof (Hr _ _ Hl) as [Hm ->].
    split; [by exists committed|].
    eapply (other_readers_inv (seen ++ [w]) w _ r);
      [exact Hr | reflexivity | done | done].
  - pose proof (Hr _ _ Hl) as Hloop. destruct Hloop as [Hm Hloop].
    destruct temp as [|front temp'].
    + injection Hstep as <-. by eapply reader_return_inv.
    + destruct (i <? items)%N eqn:Hlt.
      * injection Hstep as <-. split; [by exists committed|].
        eapply (other_readers_inv (seen ++ [w]) w _ r);
          [exact Hr | reflexivity | done |].
        simpl. split; [done|]. rewrite <- Hloop. simpl. by rewrite Hlt.
      * injection Hstep as <-. eapply reader_return_inv; [done..|].
        simpl. by rewrite Hlt.
Qed.

Lemma world_step_inv (seen : list World) (w w' : World) (e : sched) :
  world_inv (seen ++ [w]) w → world_step w e = Some w' →
  world_inv ((seen ++ [w]) ++ [w']) w'.
Proof.
  intros Hinv Hstep. destruct e as [inp|r count|r]; simpl in Hstep.
  - by eapply writer_step_inv.
  - by eapply reader_call_inv.
  - by eapply reader_step_inv.
Qed.

Lemma world_trace_inv (es : list sched) :
  ∀ (seen ws : list World) (w : World),
    world_inv (seen ++ [w]) w →
    world_trace es seen w = Some ws →
    ∃ w', last ws = Some w' ∧ world_inv ws w'.
Proof.
  induction es as [|e es IH]; intros seen ws w Hinv Htrace; simpl in Htrace.
  - injection Htrace as <-. exists w. by rewrite last_snoc.
  - destruct (world_step w e) as [w'|] eqn:Hstep; [|done].
    eapply IH; [|done]. by eapply world_step_inv.
Qed.

(** X9: the 1001-entry queue between the two statements of an append
    exists only while the loop thread owns the mutex: in every world a
    schedule reaches in which the loop thread does not own it, the
    shared queue holds at most [MAX_HISTORY_SIZE] entries. *)
Corollary shared_history_bounded (es : list sched) (ws : list World) (w : World) :
  world_trace es [] init_world = Some ws →
  last ws = Some w →
  data_mutex w ≠ Some Writer →
  (queue_size (shared_history w) ≤ MAX_HISTORY_SIZE)%N.
Proof.
  intros Hrun Hlast Hfree.
  destruct (world_trace_inv es [] ws init_world world_inv_init Hrun)
    as (w' & Hlast' & [committed Hw] & _).
  assert (w' = w) as -> by congruence.
  destruct (writer_inv_unlocked committed _ None _ _ Hw Hfree) as (_ & -> & _).
  unfold queue_size. rewrite run_appends_length. lia.
Qed.

Lemma history_view_prefix (count : N) (q : list MetricSnapshot) :
  history_view count q `prefix_of` q.
Proof. rewrite history_view_take. apply prefix_take. Qed.

Lemma history_view_size (count : N) (q : list MetricSnapshot) :
  (0 < count)%N →
  queue_size (history_view count q) = N.min count (queue_size q).
Proof.
  intros Hpos. rewrite history_view_take, history_items_pos by done.
  unfold queue_size. rewrite length_take. lia.
Qed.

(** C9: in every interleaving of the loop thread with any number of
    callers of [get_history], a caller that has returned was given
    exactly what [get_history] computes on the shared queue as it stood
    inside that very call, between its lock and its return: the run
    splits at a world [w0] in which the caller owns the mutex in that
    call and since which it has only returned with that result.  In
    [w0] the loop thread is between two appends, and the queue results
    from a whole number of appends: it is the state before or after any
    append the call overlaps, never a state in between.  The result is a
    prefix of that queue, and for a positive count it has at most
    [min count 1000] entries. *)
Theorem readers_see_whole_appends (es : list sched) (ws : list World) (w : World)
    (r : nat) (count : N) (result : list MetricSnapshot)
    (Hrun : world_trace es [] init_world = Some ws)
    (Hlast : last ws = Some w)
    (Hret : readers w !! r = Some (RReturned count result)) :
  ∃ (before : list World) (w0 : World) (after : list World)
    (committed : list MetricSnapshot) (pc0 : reader_pc),
    ws = before ++ w0 :: after
    ∧ data_mutex w0 = Some (Reader r)
    ∧ readers w0 !! r = Some pc0
    ∧ reader_in_section pc0 = true
    ∧ reader_count pc0 = count
    ∧ Forall (λ w', readers w' !! r = Some (RReturned count result)) after
    ∧ w0 ∈ ws
    ∧ between_appends w0 = true
    ∧ shared_history w0 = run_appends MAX_HISTORY_SIZE committed
    ∧ result = (get_history count (holding (shared_history w0))).1
    ∧ result `prefix_of` shared_history w0
    ∧ (queue_size result ≤ MAX_HISTORY_SIZE)%N
    ∧ ((0 < count)%N → (queue_size result ≤ N.min count MAX_HISTORY_SIZE)%N).
Proof.
  destruct (world_trace_inv es [] ws init_world world_inv_init Hrun)
    as (w' & Hlast' & _ & Hr).
  assert (w' = w) as -> by congruence.
  destruct (Hr _ _ Hret)
    as (before & w0 & after & committed & pc0 & Hws & Hm & Hl & Hin & Hc
        & Hbetween & Hsh & -> & Hafter).
  exists before, w0, after, committed, pc0.
  do 6 (split; [done|]).
  split; [rewrite Hws; apply elem_of_app; right; by left|].
  do 3 (split; [done|]). split; [apply history_view_prefix|].
  assert (Hbound : (queue_size (shared_history w0) ≤ MAX_HISTORY_SIZE)%N).
  { rewrite Hsh. unfold queue_size. rewrite run_appends_length. lia. }
  split.
  - pose proof (prefix_length _ _ (history_view_prefix count (shared_history w0))).
    unfold queue_size in *. lia.
  - intros Hpos. rewrite history_view_size by done. lia.
Qed.

(** C9 on [example_schedule]: the caller is given the snapshot of the
    first round, read while it owned the mutex; the loop thread, which
    had built its second snapshot, pushed it only afterwards. *)
Lemma readers_see_whole_appends_example :
  ∃ (ws before : list World) (w w0 : World) (after : list World),
    world_trace example_schedule [] init_world = Some ws
    ∧ last ws = Some w
    ∧ readers w !! 0 = Some (RReturned 50 [tick_snapshot (tick_at 1)])
    ∧ ws = before ++ w0 :: after
    ∧ data_mutex w0 = Some (Reader 0)
    ∧ between_appends w0 = true
    ∧ [tick_snapshot (tick_at 1)]
      = (get_history 50 (holding (shared_history w0))).1.
Proof.
  destruct (world_trace example_schedule [] init_world) as [ws|] eqn:Hrun;
    [|by vm_compute in Hrun].
  destruct (last ws) as [w|] eqn:Hlast;
    [|vm_compute in Hrun; injection Hrun as <-; by vm_compute in Hlast].
  assert (Hret : readers w !! 0 = Some (RReturned 50 [tick_snapshot (tick_at 1)])).
  { vm_compute in Hrun. injection Hrun as <-. vm_compute in Hlast.
    injection Hlast as <-. reflexivity. }
  destruct (readers_see_whole_appends example_schedule ws w 0 50
              [tick_snapshot (tick_at 1)] Hrun Hlast Hret)
    as (before & w0 & after & committed & pc0 & H1 & H2 & _ & _ & _ & _ & _
        & H3 & _ & H4 & _).
  by exists ws, before, w, w0, after.
Defined.

(** * Further properties *)

(** ** Reading the history *)

(** X1: [get_history(count)] returns the whole queue when [count] is
    zero or at least the number of retained entries; in particular an
    empty history gives an empty result for every count. *)
Theorem get_history_whole (count : N) (st : SystemMetrics)
    (Hcount : count = 0%N ∨ (queue_size (metric_history st) ≤ count)%N) :
  (get_history count st).1 = metric_history st.
Proof.
  rewrite get_history_view.
  destruct (N.eq_dec count 0%N) as [->|Hne]; [apply history_view_all|].
  destruct Hcount as [?|Hle]; [done|].
  rewrite history_view_pos by lia. apply take_ge.
  unfold queue_size in Hle. lia.
Qed.

Lemma get_history_whole_example :
  let st := holding (snapshot_at <$> [1; 2; 3]%Z) in
  (5 = 0 ∨ queue_size (metric_history st) ≤ 5)%N
  ∧ (get_history 5 st).1 = snapshot_at <$> [1; 2; 3]%Z.
Proof.
  cbv zeta.
  assert (H : (5 = 0 ∨ queue_size (metric_history
                 (holding (snapshot_at <$> [1; 2; 3]%Z))) ≤ 5)%N)
    by (right; vm_compute; discriminate).
  split; [exact H|].
  exact (get_history_whole 5 (holding (snapshot_at <$> [1; 2; 3]%Z)) H).
Defined.

(** X2: after more than 100 rounds of the loop on a new object,
    [get_history(100)], the call behind the history request, returns
    exactly 100 snapshots: those of the 100 oldest retained rounds,
    starting at round [rounds - 1000] (round 0 while fewer than 1000
    rounds have run). *)
Theorem history_request_oldest (inputs : list TickInput)
    (Hlen : 100 < length inputs) :
  let result := (get_history 100 (monitor_loop inputs new_SystemMetrics)).1 in
  result = take 100 (drop (length inputs - 1000) (tick_snapshot <$> inputs))
  ∧ length result = 100.
Proof.
  cbv zeta. rewrite get_history_view, history_view_pos by done.
  rewrite monitor_loop_history, run_appends_drop, length_fmap.
  split; [done|]. rewrite length_take, length_drop, length_fmap.
  change (N.to_nat MAX_HISTORY_SIZE) with 1000.
  change (N.to_nat 100) with 100. lia.
Qed.

(** ** Rounds of the loop *)

Lemma history_append_last (cap : N) (q : list MetricSnapshot) (s : MetricSnapshot) :
  (0 < cap)%N → last (history_append cap q s) = Some s.
Proof.
  intros Hcap. unfold history_append, evict_overflow, queue_push.
  rewrite queue_size_le, queue_pop_drop, length_app. simpl.
  case_bool_decide as Hlt; [|apply last_snoc].
  destruct q as [|x q]; simpl in *; [lia|]. apply last_snoc.
Qed.

Lemma monitor_tick_newest (inp : TickInput) (st : SystemMetrics) :
  last (metric_history (monitor_tick inp st)) = Some (tick_snapshot inp).
Proof. rewrite monitor_tick_history. by apply history_append_last. Qed.

(** X3: whatever the object holds and however many rounds the loop has
    made, after a round the newest entry of the history is the snapshot
    that round built: eviction never removes the entry just pushed. *)
Theorem newest_snapshot_retained (inputs : list TickInput) (inp : TickInput)
    (st : SystemMetrics) :
  last (metric_history (monitor_loop (inputs ++ [inp]) st))
  = Some (tick_snapshot inp).
Proof. rewrite monitor_loop_snoc. apply monitor_tick_newest. Qed.

Lemma warn_if_high_logger (prefix : string) (v : float) (st : SystemMetrics) :
  logger (warn_if_high prefix v st)
  = logger st ++ (if PrimFloat.ltb 90%float v then [LogWarn prefix v "%"] else []).
Proof.
  unfold warn_if_high. destruct (PrimFloat.ltb _ _); [done|].
  by rewrite app_nil_r.
Qed.

Lemma build_contains_failure_first (now : Z) (src : MetricSource)
    (i : Indeterminate) (st : SystemMetrics) (what : string) :
  get_cpu_usage src = Throws what →
  (get_current_metrics now src i st).1 = set_timestamp now (default_init i)
  ∧ (get_current_metrics now src i st).2 = collect_failed what st.
Proof. intros H. run_collect. by rewrite H. Qed.

(** X4: a round whose cpu reader throws still pushes its snapshot, with
    every reading unassigned, logs the error, and then tests the
    thresholds on the unassigned cpu and memory fields: a warning is
    logged exactly for those that hold a value above 90. *)
Theorem failed_round_still_recorded (inp : TickInput) (st : SystemMetrics)
    (what : string) (Hcpu : get_cpu_usage (tick_sources inp) = Throws what) :
  let i := tick_indet inp in
  let st' := monitor_tick inp st in
  last (metric_history st')
  = Some (set_timestamp (tick_now inp) (default_init i))
  ∧ logger st'
    = logger st ++ [LogError ("Error collecting metrics: " +:+ what)]
      ++ (if PrimFloat.ltb 90%float (ind_cpu_usage i)
          then [LogWarn "High CPU usage: " (ind_cpu_usage i) "%"] else [])
      ++ (if PrimFloat.ltb 90%float (ind_memory_usage i)
          then [LogWarn "High memory usage: " (ind_memory_usage i) "%"] else []).
Proof.
  cbv zeta.
  destruct (build_contains_failure_first (tick_now inp) (tick_sources inp)
              (tick_indet inp) st what Hcpu) as [Hsnap Hst].
  split.
  - rewrite monitor_tick_newest. f_equal.
    rewrite <- (get_current_metrics_snapshot inp st). by rewrite Hsnap.
  - unfold monitor_tick.
    destruct (get_current_metrics _ _ _ st) as [snapshot st1]. simpl in *.
    subst snapshot st1. rewrite !warn_if_high_logger. simpl.
    by rewrite <- !app_assoc.
Qed.

(** X2 on 150 rounds. *)
Lemma history_request_oldest_example :
  let inputs := tick_at <$> seqZ 0 150 in
  100 < length inputs
  ∧ timestamp <$> (get_history 100 (monitor_loop inputs new_SystemMetrics)).1
    = seqZ 0 100.
Proof.
  cbv zeta.
  assert (Hlen : 100 < length (tick_at <$> seqZ 0 150))
    by (vm_compute; lia).
  split; [exact Hlen|].
  destruct (history_request_oldest (tick_at <$> seqZ 0 150) Hlen) as [H _].
  rewrite H. vm_compute. reflexivity.
Defined.

(** X4 when the unassigned cpu field holds 95. *)
Lemma failed_round_still_recorded_example :
  get_cpu_usage (tick_sources failing_tick) = Throws "stat"
  ∧ logger (monitor_tick failing_tick new_SystemMetrics)
    = [LogError "Error collecting metrics: stat";
       LogWarn "High CPU usage: " 95 "%"].
Proof.
  split; [reflexivity|].
  destruct (failed_round_still_recorded failing_tick new_SystemMetrics "stat"
              eq_refl) as [_ H].
  rewrite H. reflexivity.
Defined.

(** ** Lifecycle *)

(** X5: on an object reached by any calls and rounds and found Stopped,
    [start_monitoring] succeeds, the object is Running with one loop
    thread and the same history; a [stop_monitoring] right after, with no
    round in flight, gives back the object as it was before the start but
    for the two records logged. *)
Theorem start_stop_round_trip (es : list lifecycle_event) (st : SystemMetrics)
    (Hrun : lifecycle_run es new_SystemMetrics = Some st)
    (Hstopped : lifecycle_of st = Stopped) :
  ∃ st1, start_monitoring st = Some st1
    ∧ lifecycle_of st1 = Running
    ∧ loop_threads st1 = 1
    ∧ metric_history st1 = metric_history st
    ∧ stop_monitoring None st1
      = log (LogInfo "Performance monitoring stopped")
          (log (LogInfo "Performance monitoring started") st).
Proof.
  destruct (lifecycle_run_inv es _ lifecycle_inv_new) as (st' & Hrun' & Hj & Hn).
  assert (st' = st) as -> by congruence.
  unfold lifecycle_of in Hstopped.
  destruct (monitoring st) eqn:Hm; [done|].
  unfold start_monitoring. rewrite Hm, Hj. eexists. split; [done|].
  unfold lifecycle_of, stop_monitoring, log. simpl. rewrite Hn.
  repeat split; try done.
  destruct st as [m j n h l]. simpl in *. by subst.
Qed.

Lemma start_stop_round_trip_example :
  let es := [CallStart; LoopRound (tick_at 1); CallStop None] in
  ∃ st,
    (lifecycle_run es new_SystemMetrics = Some st ∧ lifecycle_of st = Stopped)
    ∧ ∃ st1, start_monitoring st = Some st1
        ∧ metric_history st1 = [tick_snapshot (tick_at 1)].
Proof.
  cbv zeta.
  destruct (lifecycle_run [CallStart; LoopRound (tick_at 1); CallStop None]
              new_SystemMetrics) as [st|] eqn:Hrun; [|by vm_compute in Hrun].
  assert (Hstopped : lifecycle_of st = Stopped)
    by (vm_compute in Hrun; injection Hrun as <-; reflexivity).
  assert (Hh : metric_history st = [tick_snapshot (tick_at 1)])
    by (vm_compute in Hrun; injection Hrun as <-; reflexivity).
  exists st. split; [done|].
  destruct (start_stop_round_trip _ st Hrun Hstopped)
    as (st1 & H1 & _ & _ & H2 & _).
  exists st1. split; [exact H1 | by rewrite H2].
Defined.

(** ** The mutex *)

Lemma owner_inv_init : owner_inv init_world.
Proof. done. Qed.

Lemma writer_step_owner (w w' : World) (inp : TickInput) :
  owner_inv w → writer_step inp w = Some w' → owner_inv w'.
Proof.
  unfold owner_inv, writer_step, between_appends. intros Hown Hstep.
  destruct (writer w) eqn:Hpc; destruct (data_mutex w) as [[|r]|] eqn:Hm;
    simplify_eq; simpl; try done.
Qed.

Lemma reader_call_owner (w w' : World) (r : nat) (count : N) :
  owner_inv w → reader_call r count w = Some w' → owner_inv w'.
Proof.
  unfold owner_inv, reader_call. intros Hown Hstep.
  assert (w' = mkWorld (data_mutex w) (shared_history w) (writer w)
                 (<[r := RCalled count]> (readers w))
          ∧ ∀ pc, readers w !! r = Some pc → reader_in_section pc = false)
    as [-> Hout].
  { destruct (readers w !! r) as [[]|]; simplify_eq; split; try done;
      intros pc Hpc; by simplify_eq. }
  simpl. destruct (data_mutex w) as [[|r']|]; try done.
  destruct Hown as (pc & Hl & Hin). exists pc. split; [|done].
  rewrite lookup_insert_ne; [done|]. intros <-.
  specialize (Hout _ Hl). congruence.
Qed.

Lemma reader_step_owner (w w' : World) (r : nat) :
  owner_inv w → reader_step r w = Some w' → owner_inv w'.
Proof.
  unfold owner_inv, reader_step, reader_return, set_reader. intros Hown Hstep.
  assert (Hkeep : ∀ pc' : reader_pc, reader_in_section pc' = true →
            match data_mutex w with
            | Some Writer => between_appends w = false
            | Some (Reader r0) =>
                ∃ pc, <[r := pc']> (readers w) !! r0 = Some pc
                      ∧ reader_in_section pc = true
            | None => True
            end).
  { intros pc' Hin. destruct (data_mutex w) as [[|r0]|]; try done.
    destruct Hown as (pc & Hl & Hpc). destruct (decide (r = r0)) as [->|Hne].
    - exists pc'. by rewrite lookup_insert_eq.
    - exists pc. by rewrite lookup_insert_ne. }
  destruct (readers w !! r) as [[c|c|c items|c i items temp history|c res]|];
    [| | | |done|done].
  - destruct (data_mutex w); [done|]. injection Hstep as <-. simpl.
    exists (RLocked c). by rewrite lookup_insert_eq.
  - injection Hstep as <-. simpl. by apply Hkeep.
  - injection Hstep as <-. simpl. by apply Hkeep.
  - destruct temp as [|front temp']; [by injection Hstep as <-|].
    destruct (i <? items)%N; injection Hstep as <-; simpl; [by apply Hkeep|done].
Qed.

Lemma world_step_owner (w w' : World) (e : sched) :
  owner_inv w → world_step w e = Some w' → owner_inv w'.
Proof.
  destruct e; simpl;
    eauto using writer_step_owner, reader_call_owner, reader_step_owner.
Qed.

Lemma world_trace_owner (es : list sched) :
  ∀ (seen ws : list World) (w w' : World),
    owner_inv w → world_trace es seen w = Some ws → last ws = Some w' →
    owner_inv w'.
Proof.
  induction es as [|e es IH]; intros seen ws w w' Hown Htrace Hlast;
    simpl in Htrace.
  - injection Htrace as <-. rewrite last_snoc in Hlast. by simplify_eq.
  - destruct (world_step w e) as [w1|] eqn:Hstep; [|done].
    eapply IH; [|done|done]. by eapply world_step_owner.
Qed.

(** X6: mutual exclusion.  In every world a schedule reaches, a thread
    inside its critical section owns the mutex; so no two callers of
    [get_history] are between lock and return at once, and none is while
    the loop thread is between its lock and its unlock. *)
Theorem critical_sections_exclusive (es : list sched) (ws : list World) (w : World)
    (Hrun : world_trace es [] init_world = Some ws)
    (Hlast : last ws = Some w) :
  (∀ r pc, readers w !! r = Some pc → reader_in_section pc = true →
     data_mutex w = Some (Reader r) ∧ between_appends w = true)
  ∧ (∀ r r' pc pc',
       readers w !! r = Some pc → reader_in_section pc = true →
       readers w !! r' = Some pc' → reader_in_section pc' = true →
       r = r')
  ∧ (between_appends w = false → data_mutex w = Some Writer).
Proof.
  destruct (world_trace_inv es [] ws init_world world_inv_init Hrun)
    as (w' & Hlast' & [committed Hw] & Hr).
  assert (w' = w) as -> by congruence.
  assert (Howns : ∀ r pc, readers w !! r = Some pc →
            reader_in_section pc = true → data_mutex w = Some (Reader r)).
  { intros r pc Hl Hin. specialize (Hr _ _ Hl).
    destruct pc; simpl in *; try done; by destruct Hr. }
  assert (Hwriter : between_appends w = false → data_mutex w = Some Writer).
  { unfold between_appends. destruct (writer w); simpl in Hw; try done;
      by destruct Hw. }
  split; [|split; [|done]].
  - intros r pc Hl Hin. split; [by eapply Howns|].
    destruct (between_appends w) eqn:Hb; [done|].
    rewrite (Howns _ _ Hl Hin) in Hwriter. by specialize (Hwriter eq_refl).
  - intros r r' pc pc' Hl Hin Hl' Hin'.
    pose proof (Howns _ _ Hl Hin) as H1. pose proof (Howns _ _ Hl' Hin') as H2.
    congruence.
Qed.

(** X6 on a world where caller 0 has just taken the mutex. *)
Lemma critical_sections_exclusive_example :
  ∃ ws w,
    (world_trace locked_schedule [] init_world = Some ws ∧ last ws = Some w)
    ∧ readers w !! 0 = Some (RLocked 50)
    ∧ data_mutex w = Some (Reader 0)
    ∧ between_appends w = true.
Proof.
  destruct (world_trace locked_schedule [] init_world) as [ws|] eqn:Hrun;
    [|by vm_compute in Hrun].
  destruct (last ws) as [w|] eqn:Hlast;
    [|vm_compute in Hrun; injection Hrun as <-; by vm_compute in Hlast].
  assert (Hl : readers w !! 0 = Some (RLocked 50)).
  { vm_compute in Hrun. injection Hrun as <-. vm_compute in Hlast.
    injection Hlast as <-. reflexivity. }
  destruct (critical_sections_exclusive locked_schedule ws w Hrun Hlast)
    as (H & _ & _).
  destruct (H 0 (RLocked 50) Hl eq_refl) as [Hm Hb].
  by exists ws, w.
Defined.

(** X7: no deadlock on the mutex.  In every world a schedule reaches,
    the thread that owns the mutex can make its next statement. *)
Theorem mutex_owner_can_step (es : list sched) (ws : list World) (w : World)
    (t : thread_id) (inp : TickInput)
    (Hrun : world_trace es [] init_world = Some ws)
    (Hlast : last ws = Some w)
    (Howner : data_mutex w = Some t) :
  is_Some (world_step w (statement_of inp t)).
Proof.
  pose proof (world_trace_owner es [] ws init_world w owner_inv_init Hrun Hlast)
    as Hown.
  unfold owner_inv in Hown. rewrite Howner in Hown.
  destruct t as [|r]; simpl.
  - unfold writer_step, between_appends in *. by destruct (writer w).
  - destruct Hown as (pc & Hl & Hin). unfold reader_step. rewrite Hl.
    destruct pc as [| | |c i items temp history|]; try done.
    destruct temp; [done|]. by destruct (i <? items)%N.
Qed.

Lemma mutex_owner_can_step_example :
  ∃ ws w,
    (world_trace locked_schedule [] init_world = Some ws ∧ last ws = Some w
     ∧ data_mutex w = Some (Reader 0))
    ∧ is_Some (world_step w (ReaderStep 0)).
Proof.
  destruct (world_trace locked_schedule [] init_world) as [ws|] eqn:Hrun;
    [|by vm_compute in Hrun].
  destruct (last ws) as [w|] eqn:Hlast;
    [|vm_compute in Hrun; injection Hrun as <-; by vm_compute in Hlast].
  assert (Hm : data_mutex w = Some (Reader 0)).
  { vm_compute in Hrun. injection Hrun as <-. vm_compute in Hlast.
    injection Hlast as <-. reflexivity. }
  exists ws, w. split; [done|].
  exact (mutex_owner_can_step locked_schedule ws w (Reader 0) (tick_at 2)
           Hrun Hlast Hm).
Defined.

(** ** Length of the critical sections *)

Lemma world_run_app (es1 es2 : list sched) (w w1 : World) :
  world_run es1 w = Some w1 → world_run (es1 ++ es2) w = world_run es2 w1.
Proof.
  revert w. induction es1 as [|e es1 IH]; intros w Hrun; simpl in *.
  - by simplify_eq.
  - destruct (world_step w e); [by apply IH | done].
Qed.




(** X9 on a world where a caller owns the mutex. *)
Lemma shared_history_bounded_example :
  ∃ ws w,
    (world_trace locked_schedule [] init_world = Some ws ∧ last ws = Some w
     ∧ data_mutex w ≠ Some Writer)
    ∧ (queue_size (shared_history w) ≤ MAX_HISTORY_SIZE)%N.
Proof.
  destruct (world_trace locked_schedule [] init_world) as [ws|] eqn:Hrun;
    [|by vm_compute in Hrun].
  destruct (last ws) as [w|] eqn:Hlast;
    [|vm_compute in Hrun; injection Hrun as <-; by vm_compute in Hlast].
  assert (Hm : data_mutex w ≠ Some Writer).
  { vm_compute in Hrun. injection Hrun as <-. vm_compute in Hlast.
    injection Hlast as <-. discriminate. }
  exists ws, w. split; [done|].
  exact (shared_history_bounded locked_schedule ws w Hrun Hlast Hm).
Defined.

(** ** [WebServer]: lifecycle *)

Lemma server_start_inv (port : Z) (s : WebServer.state) :
  server_inv s → ∃ s', WebServer.start port s = Some s' ∧ server_inv s'.
Proof.
  intros [Hj Hn]. unfold WebServer.start.
  destruct (WebServer.running s) eqn:Hr.
  - exists s. split; [done|]. unfold server_inv. by rewrite Hr.
  - rewrite Hj. eexists. split; [done|]. unfold server_inv. simpl. by rewrite Hn.
Qed.

Lemma server_stop_inv (s : WebServer.state) : server_inv s → server_inv (WebServer.stop s).
Proof.
  intros [Hj Hn]. unfold WebServer.stop, server_inv. simpl.
  rewrite Hj, Hn. by destruct (WebServer.running s).
Qed.

Lemma server_run_inv (cs : list WebServer.call) :
  ∀ s, server_inv s → ∃ s', WebServer.run cs s = Some s' ∧ server_inv s'.
Proof.
  induction cs as [|[port|] cs IH]; intros s Hinv; simpl.
  - by exists s.
  - destruct (server_start_inv port s Hinv) as (s1 & -> & Hinv1). by apply IH.
  - by apply IH, server_stop_inv.
Qed.

(** X10: whatever calls of [start] and [stop] a new [WebServer] has
    received, none ended in [std::terminate] and exactly one server
    thread runs while the flag is set, none otherwise.  [start] on a
    running server changes nothing.  [stop] has no test of the flag: on a
    server that is not running it changes no field but still logs
    "Web server stopped", once per call. *)
Theorem server_lifecycle (cs : list WebServer.call) :
  ∃ s, WebServer.run cs WebServer.new = Some s
    ∧ WebServer.server_threads s = (if WebServer.running s then 1 else 0)
    ∧ (WebServer.running s = true → ∀ port, WebServer.start port s = Some s)
    ∧ (WebServer.running s = false →
         WebServer.stop s = WebServer.info "Web server stopped" s)
    ∧ WebServer.running (WebServer.stop s) = false
    ∧ WebServer.server_threads (WebServer.stop s) = 0.
Proof.
  destruct (server_run_inv cs WebServer.new) as (s & Hrun & Hj & Hn); [done|].
  exists s. split; [done|]. split; [done|].
  split; [|split; [|split]].
  - intros Hr port. unfold WebServer.start. by rewrite Hr.
  - intros Hr. unfold WebServer.stop. simpl. rewrite Hj, Hr.
    unfold WebServer.info. simpl. destruct s; simpl in *. by subst.
  - unfold WebServer.stop. simpl. by destruct (WebServer.server_thread s).
  - unfold WebServer.stop. simpl. rewrite Hj, Hn.
    by destruct (WebServer.running s).
Qed.

(** ** [WebServer]: the JSON text *)

Lemma string_app_assoc (s1 s2 s3 : string) : (s1 +:+ s2) +:+ s3 = s1 +:+ s2 +:+ s3.
Proof.
  induction s1 as [|a s1 IH]; [done|].
  change (String a ((s1 +:+ s2) +:+ s3) = String a (s1 +:+ s2 +:+ s3)).
  by rewrite IH.
Qed.

Lemma string_app_nil_r (s : string) : s +:+ EmptyString = s.
Proof.
  induction s as [|a s IH]; [done|].
  change (String a (s +:+ EmptyString) = String a s). by rewrite IH.
Qed.

Lemma size_t_sub_1 (size : N) :
  (0 < size < 2 ^ 64)%N → size_t_sub size 1 = (size - 1)%N.
Proof.
  intros Hsize. unfold size_t_sub. rewrite Z.mod_small by lia. lia.
Qed.

Lemma format_entries_separated (pf : Platform) (size : N) (rest : list MetricSnapshot) :
  ∀ (i : N) (json : string),
    (i + N.of_nat (length rest) = size)%N → (size < 2 ^ 64)%N →
    WebServer.format_entries pf size i rest json
    = json +:+ separated (WebServer.history_entry pf <$> rest).
Proof.
  induction rest as [|snapshot rest IH]; intros i json Hlen Hsize; simpl.
  - by rewrite string_app_nil_r.
  - rewrite IH by (simpl in Hlen; lia).
    rewrite size_t_sub_1 by (simpl in Hlen; lia).
    destruct rest as [|next rest]; simpl in *.
    + replace (i <? size - 1)%N with false by (symmetry; apply N.ltb_ge; lia).
      by rewrite !string_app_assoc.
    + replace (i <? size - 1)%N with true by (symmetry; apply N.ltb_lt; lia).
      by rewrite !string_app_assoc.
Qed.

(** X11: [format_history] writes the entries as a well-formed array:
    one element per snapshot in the order given, a comma after every
    element but the last, none for an empty history (where the bound
    [size() - 1] of the comma test wraps around but is never read), and
    a ["count"] equal to the number of elements. *)
Theorem format_history_separated (pf : Platform) (history : list MetricSnapshot)
    (Hsize : (N.of_nat (length history) < 2 ^ 64)%N) :
  WebServer.format_history pf history
  = "{" +:+ nl +:+ "  " +:+ key "data" +:+ ": [" +:+ nl
    +:+ separated (WebServer.history_entry pf <$> history)
    +:+ "  ]," +:+ nl
    +:+ "  " +:+ key "count" +:+ ": " +:+ pretty (N.of_nat (length history)) +:+ nl
    +:+ "}".
Proof.
  unfold WebServer.format_history.
  rewrite format_entries_separated by (done || lia).
  by rewrite !string_app_assoc.
Qed.

Lemma format_history_separated_example :
  (N.of_nat (length (snapshot_at <$> [1000000; 2000000]%Z)) < 2 ^ 64)%N
  ∧ WebServer.format_history example_platform (snapshot_at <$> [1000000; 2000000]%Z)
    = "{" +:+ nl +:+ "  " +:+ key "data" +:+ ": [" +:+ nl
      +:+ WebServer.history_entry example_platform (snapshot_at 1000000)
      +:+ "," +:+ nl
      +:+ WebServer.history_entry example_platform (snapshot_at 2000000) +:+ nl
      +:+ "  ]," +:+ nl +:+ "  " +:+ key "count" +:+ ": 2" +:+ nl +:+ "}".
Proof.
  assert (H : (N.of_nat (length (snapshot_at <$> [1000000; 2000000]%Z)) < 2 ^ 64)%N)
    by reflexivity.
  split; [exact H|].
  rewrite (format_history_separated example_platform
             (snapshot_at <$> [1000000; 2000000]%Z) H).
  reflexivity.
Defined.

(** ** [WebServer]: requests *)

(** X12: the history request answers with [format_history] of the 100
    oldest retained snapshots (all of them when there are at most 100)
    and leaves the object as it was. *)
Theorem history_request (env : WebServer.RequestEnv) (metrics : SystemMetrics) :
  WebServer.handle_request env "/history" metrics
  = (WebServer.format_history (WebServer.platform env)
       (take 100 (metric_history metrics)), metrics).
Proof.
  unfold WebServer.handle_request.
  change (String.eqb "/history" "/health") with false.
  change (String.eqb "/history" "/metrics") with false.
  change (String.eqb "/history" "/history") with true. cbv iota.
  change (get_history 100 metrics)
    with ((get_history 100 metrics).1, metrics).
  by rewrite get_history_view, history_view_pos.
Qed.

(** X13: no request writes the history or the lifecycle fields of the
    object; a request other than the metrics request leaves the whole
    object as it was, and a path that is none of the four routes gets the
    error body. *)
Theorem requests_read_only (env : WebServer.RequestEnv) (path : string)
    (metrics : SystemMetrics) :
  let r := WebServer.handle_request env path metrics in
  metric_history r.2 = metric_history metrics
  ∧ monitoring r.2 = monitoring metrics
  ∧ loop_threads r.2 = loop_threads metrics
  ∧ (path ≠ "/metrics" → r.2 = metrics)
  ∧ (path ≠ "/health" → path ≠ "/metrics" → path ≠ "/history" →
     path ≠ "/system" → r = (WebServer.not_found_body, metrics)).
Proof.
  cbv zeta. unfold WebServer.handle_request.
  destruct (String.eqb_spec path "/health") as [->|H1]; [done|].
  destruct (String.eqb_spec path "/metrics") as [->|H2].
  - unfold get_current_metrics.
    destruct (collect _ _) as [[?|?] ?]; done.
  - destruct (String.eqb_spec path "/history") as [->|H3]; [done|].
    destruct (String.eqb_spec path "/system") as [->|H4]; done.
Qed.

Lemma requests_read_only_example :
  let r := WebServer.handle_request example_env "/nowhere"
             (holding (snapshot_at <$> [1; 2]%Z)) in
  ("/nowhere" ≠ "/health" ∧ "/nowhere" ≠ "/metrics" ∧ "/nowhere" ≠ "/history"
   ∧ "/nowhere" ≠ "/system")
  ∧ r = (WebServer.not_found_body, holding (snapshot_at <$> [1; 2]%Z)).
Proof.
  cbv zeta.
  assert (H : "/nowhere" ≠ "/health" ∧ "/nowhere" ≠ "/metrics"
              ∧ "/nowhere" ≠ "/history" ∧ "/nowhere" ≠ "/system")
    by (repeat split; discriminate).
  split; [exact H|]. destruct H as (H1 & H2 & H3 & H4).
  destruct (requests_read_only example_env "/nowhere"
              (holding (snapshot_at <$> [1; 2]%Z))) as (_ & _ & _ & _ & H).
  by apply H.
Defined.

(** ** [main] *)

(** X14: [main] never returns.  When [std::stoi] rejects the port
    argument the exception leaves the [try] block after
    [start_monitoring] has made the thread member joinable, so the
    destructor of the [SystemMetrics] object ends the process in
    [std::terminate] and the handler that would return 1 is not reached.
    Otherwise both objects are started, on port 9000 when no argument is
    given, and [main] stays in its loop. *)
Theorem main_never_returns (argv : list string) (stoi : string → outcome Z) :
  (∀ code cerr, main argv stoi ≠ Returned code cerr)
  ∧ (∀ arg what, argv !! 1 = Some arg → stoi arg = Throws what →
       main argv stoi = Terminated)
  ∧ (∀ arg port, argv !! 1 = Some arg → stoi arg = Returns port →
       ∃ metrics server logger,
         main argv stoi = Serving metrics server logger
         ∧ lifecycle_of metrics = Running
         ∧ WebServer.running server = true
         ∧ WebServer.logger server
           = [LogInfo ("Web server started on port " +:+ pretty port)])
  ∧ (argv !! 1 = None →
       ∃ metrics server logger,
         main argv stoi = Serving metrics server logger
         ∧ lifecycle_of metrics = Running
         ∧ WebServer.running server = true
         ∧ WebServer.logger server = [LogInfo "Web server started on port 9000"]).
Proof.
  unfold main. simpl.
  assert (Harg : ∀ arg, argv !! 1 = Some arg → bool_decide (1 < length argv) = true).
  { intros arg Hl. apply bool_decide_eq_true. by apply lookup_lt_Some in Hl. }
  assert (Hnone : argv !! 1 = None → bool_decide (1 < length argv) = false).
  { intros Hl. apply bool_decide_eq_false. apply lookup_ge_None in Hl. lia. }
  split; [|split; [|split]].
  - intros code cerr. case_bool_decide; [|done].
    by destruct (stoi _).
  - intros arg what Hl Hs. by rewrite (Harg _ Hl), Hl; simpl; rewrite Hs.
  - intros arg port Hl Hs. rewrite (Harg _ Hl), Hl. simpl. rewrite Hs.
    by eexists _, _, _.
  - intros Hl. rewrite (Hnone Hl). by eexists _, _, _.
Qed.

Lemma main_never_returns_example :
  let stoi := λ s : string, if String.eqb s "8080" then Returns 8080%Z
                            else Throws "stoi" in
  (["monitor"; "http"] !! 1 = Some "http" ∧ stoi "http" = Throws "stoi")
  ∧ main ["monitor"; "http"] stoi = Terminated.
Proof.
  cbv zeta. split; [split; reflexivity|].
  destruct (main_never_returns ["monitor"; "http"]
              (λ s : string, if String.eqb s "8080" then Returns 8080%Z
                             else Throws "stoi")) as (_ & H & _).
  by apply (H "http" "stoi").
Defined.

(** ** The cpu reader *)

(** X15: the first call of [get_cpu_usage] returns 0 and only records
    the counters.  A call that reads the same four counters as the call
    before it divides zero by zero: it returns NaN, on which the
    threshold test of the loop logs nothing. *)
Theorem cpu_usage_without_progress (t : Linux.CpuTicks) (s : Linux.CpuStatics)
    (st : SystemMetrics) :
  (Linux.first_call s = true →
     Linux.get_cpu_usage t s = (0%float, Linux.remember t))
  ∧ (let second := Linux.get_cpu_usage t (Linux.get_cpu_usage t s).2 in
     second.1 = PrimFloat.nan
     ∧ second.2 = Linux.remember t
     ∧ warn_if_high "High CPU usage: " second.1 st = st).
Proof.
  split.
  - intros Hfirst. unfold Linux.get_cpu_usage. by rewrite Hfirst.
  - assert (Hs : (Linux.get_cpu_usage t s).2 = Linux.remember t).
    { unfold Linux.get_cpu_usage. by destruct (Linux.first_call s). }
    cbv zeta. rewrite Hs. unfold Linux.get_cpu_usage, Linux.remember. simpl.
    rewrite !Z.sub_diag. by vm_compute.
Qed.

Lemma cpu_usage_without_progress_example :
  Linux.first_call Linux.initial_statics = true
  ∧ Linux.get_cpu_usage (Linux.mkCpuTicks 5 6 7 8) Linux.initial_statics
    = (0%float, Linux.remember (Linux.mkCpuTicks 5 6 7 8)).
Proof.
  split; [reflexivity|].
  destruct (cpu_usage_without_progress (Linux.mkCpuTicks 5 6 7 8)
              Linux.initial_statics new_SystemMetrics) as [H _].
  by apply H.
Defined.

(** ** The process reader *)

Lemma scan_proc_bounded (fs : Linux.ProcFs) (count : N) (entries : list string) :
  ∀ processes ps,
    (N.of_nat (length processes) ≤ count)%N →
    Forall (λ p, cpu_percent p = 0%float ∧ memory_bytes p = 0%N
                 ∧ status p = "running") processes →
    Linux.scan_proc fs count entries processes = Returns ps →
    (N.of_nat (length ps) ≤ count)%N
    ∧ Forall (λ p, cpu_percent p = 0%float ∧ memory_bytes p = 0%N
                   ∧ status p = "running") ps.
Proof.
  induction entries as [|d_name entries IH]; intros processes ps Hlen Hall Hscan;
    simpl in Hscan.
  - by simplify_eq.
  - destruct (N.ltb_spec (N.of_nat (length processes)) count) as [Hlt|Hge];
      simpl in Hscan; [|by simplify_eq].
    destruct (Linux.isdigit _); simpl in Hscan; [|by eapply IH].
    destruct (Linux.stoul d_name) as [v|]; [|done].
    destruct (Linux.open_file fs _) as [content|]; [|by eapply IH].
    destruct (Linux.extract _) as [pid_str iss].
    destruct (Linux.extract iss) as [comm iss'].
    destruct (Linux.substr _ _ _) as [nm|]; [|done].
    eapply IH; [| |done].
    + rewrite length_app. simpl. lia.
    + apply Forall_app. split; [done|]. by repeat constructor.
Qed.

Lemma scan_proc_exact (fs : Linux.ProcFs) (count : N) (entries : list string) :
  ∀ processes ps,
    (N.of_nat (length processes) ≤ count)%N →
    Linux.scan_proc fs count entries processes = Returns ps →
    ∃ new,
      ps = processes ++ new
      ∧ Forall2 (recorded_from fs)
          (take (N.to_nat count - length processes)
             (filter (λ d, eligible fs d = true) entries))
          new.
Proof.
  induction entries as [|d_name entries IH]; intros processes ps Hlen Hscan;
    simpl in Hscan.
  - injection Hscan as <-. exists []. rewrite app_nil_r. split; [done|].
    rewrite filter_nil, take_nil. constructor.
  - destruct (N.ltb_spec (N.of_nat (length processes)) count) as [Hlt|Hge];
      simpl in Hscan.
    2:{ injection Hscan as <-. exists []. rewrite app_nil_r. split; [done|].
        replace (N.to_nat count - length processes) with 0 by lia.
        rewrite take_0. constructor. }
    rewrite filter_cons.
    destruct (Linux.isdigit (Linux.first_char d_name)) eqn:Hdigit;
      simpl in Hscan.
    2:{ rewrite decide_False by (unfold eligible; by rewrite Hdigit).
        by apply IH. }
    destruct (Linux.stoul d_name) as [v|] eqn:Hv; [|done].
    destruct (Linux.open_file fs ("/proc/" +:+ d_name +:+ "/stat"))
      as [content|] eqn:Hfile.
    2:{ rewrite decide_False by (unfold eligible; by rewrite Hdigit, Hfile).
        by apply IH. }
    rewrite decide_True by (unfold eligible; by rewrite Hdigit, Hfile).
    destruct (Linux.extract (Linux.first_line content)) as [pid_str iss] eqn:H1.
    destruct (Linux.extract iss) as [comm iss'] eqn:H2.
    assert (Hsecond : second_word content = comm).
    { unfold second_word. rewrite H1. simpl. by rewrite H2. }
    rewrite <- Hsecond in Hscan.
    destruct (Linux.substr _ _ _) as [nm|] eqn:Hname; [|done].
    apply IH in Hscan as (new & -> & Hnew);
      [|rewrite length_app; simpl; lia].
    exists (mkProcessInfo (v mod 2 ^ 32) nm 0 0 "running" :: new).
    split; [by rewrite <- app_assoc|].
    rewrite length_app in Hnew. simpl in Hnew.
    replace (N.to_nat count - length processes)
      with (S (N.to_nat count - (length processes + 1))) by lia.
    simpl. constructor; [|done]. by exists v, content, nm.
Qed.

(** X16: when [get_top_processes(count)] returns, it returns at most
    [count] processes, every one with a cpu share of 0, 0 bytes of
    memory and the status "running"; and it returns them in the order
    of the directory: they are what the loop records for the first
    [count] entries of [/proc] whose name begins with a digit and whose
    stat file opens, one process per entry in the order [readdir] gave
    them.  The list is not ranked by anything the function measured.
    When [/proc] cannot be opened the list is empty. *)
Theorem top_processes_unranked (fs : Linux.ProcFs) (count : N)
    (ps : list ProcessInfo)
    (Hret : Linux.get_top_processes fs count = Returns ps) :
  (N.of_nat (length ps) ≤ count)%N
  ∧ Forall (λ p, cpu_percent p = 0%float ∧ memory_bytes p = 0%N
                 ∧ status p = "running") ps
  ∧ (∀ entries, Linux.proc_entries fs = Some entries →
       Forall2 (recorded_from fs)
         (take (N.to_nat count) (filter (λ d, eligible fs d = true) entries))
         ps)
  ∧ (Linux.proc_entries fs = None → ps = []).
Proof.
  unfold Linux.get_top_processes in Hret.
  destruct (Linux.proc_entries fs) as [entries|].
  - destruct (scan_proc_bounded fs count entries [] ps) as [Hlen Hall];
      [simpl; lia | done | done |].
    split; [done|]. split; [done|]. split; [|done].
    intros ? [= <-].
    destruct (scan_proc_exact fs count entries [] ps) as (new & -> & Hnew);
      [simpl; lia | done |].
    simpl in Hnew. by rewrite Nat.sub_0_r in Hnew.
  - simplify_eq. split; [simpl; lia|]. by repeat split.
Qed.

(** X16 on a directory that lists process 42 before process 7. *)
Lemma top_processes_unranked_example :
  let ps := [mkProcessInfo 42 "bash" 0 0 "running";
             mkProcessInfo 7 "init" 0 0 "running"] in
  Linux.get_top_processes ordered_proc 10 = Returns ps
  ∧ (N.of_nat (length ps) ≤ 10)%N
  ∧ Forall2 (recorded_from ordered_proc) ["42"; "7"] ps.
Proof.
  cbv zeta.
  assert (H : Linux.get_top_processes ordered_proc 10
              = Returns [mkProcessInfo 42 "bash" 0 0 "running";
                         mkProcessInfo 7 "init" 0 0 "running"]) by reflexivity.
  split; [exact H|].
  destruct (top_processes_unranked ordered_proc 10 _ H) as (H1 & _ & H2 & _).
  split; [exact H1|]. exact (H2 _ eq_refl).
Defined.

(** ** Text: words, lines and numbers *)

Lemma string_app_cons (c : ascii) (s t : string) :
  String c s +:+ t = String c (s +:+ t).
Proof. reflexivity. Qed.

Lemma string_length_app (s t : string) :
  String.length (s +:+ t) = String.length s + String.length t.
Proof.
  induction s as [|c s IH]; [done|]. rewrite string_app_cons. simpl. by rewrite IH.
Qed.

Lemma substring_app_l (s t : string) :
  String.substring 0 (String.length s) (s +:+ t) = s.
Proof.
  induction s as [|c s IH]; [by destruct t|].
  rewrite string_app_cons. simpl. by rewrite IH.
Qed.

Lemma not_space_not_newline (c : ascii) :
  Ascii.is_space c = false → Ascii.eqb c "010" = false.
Proof. by destruct c as [[] [] [] [] [] [] [] []]. Qed.

Lemma digit_not_space (c : ascii) :
  Linux.isdigit c = true → Ascii.is_space c = false.
Proof. by destruct c as [[] [] [] [] [] [] [] []]. Qed.

Lemma no_space_app (s t : string) :
  no_space (s +:+ t) = no_space s && no_space t.
Proof.
  induction s as [|c s IH]; [done|]. rewrite string_app_cons. simpl.
  by rewrite IH, andb_assoc.
Qed.

Lemma read_word_space (w r : string) :
  no_space w = true →
  Linux.read_word (w +:+ String " " r) = (w, String " " r).
Proof.
  induction w as [|c w IH]; intros Hw; [done|].
  simpl in Hw. apply andb_true_iff in Hw as [Hc Hw].
  rewrite string_app_cons. simpl. apply negb_true_iff in Hc. rewrite Hc.
  by rewrite IH.
Qed.

Lemma read_word_end (w : string) :
  no_space w = true → Linux.read_word w = (w, EmptyString).
Proof.
  induction w as [|c w IH]; intros Hw; [done|].
  simpl in Hw. apply andb_true_iff in Hw as [Hc Hw].
  simpl. apply negb_true_iff in Hc. rewrite Hc. by rewrite IH.
Qed.

Lemma first_line_word (w r : string) :
  no_space w = true → Linux.first_line (w +:+ r) = w +:+ Linux.first_line r.
Proof.
  induction w as [|c w IH]; intros Hw; [done|].
  simpl in Hw. apply andb_true_iff in Hw as [Hc Hw].
  rewrite !string_app_cons. simpl. apply negb_true_iff in Hc.
  rewrite (not_space_not_newline c Hc). by rewrite IH.
Qed.

Lemma skip_ws_word (w r : string) :
  w ≠ EmptyString → no_space w = true → Linux.skip_ws (w +:+ r) = w +:+ r.
Proof.
  destruct w as [|c w]; [done|]. intros _ Hw. simpl in Hw.
  apply andb_true_iff in Hw as [Hc Hw]. apply negb_true_iff in Hc.
  rewrite string_app_cons. simpl. by rewrite Hc.
Qed.

(** The first two words of a line that begins with two words, each
    followed by a blank. *)
Lemma extract_two_words (pid_str comm tail : string) :
  pid_str ≠ EmptyString → no_space pid_str = true →
  comm ≠ EmptyString → no_space comm = true →
  ∃ iss iss',
    Linux.extract
      (Linux.first_line (pid_str +:+ String " " (comm +:+ String " " tail)))
    = (pid_str, iss)
    ∧ Linux.extract iss = (comm, iss').
Proof.
  intros Hp Hpw Hc Hcw.
  exists (String " " (comm +:+ String " " (Linux.first_line tail))),
         (String " " (Linux.first_line tail)).
  rewrite first_line_word by done.
  change (Linux.first_line (String " " (comm +:+ String " " tail)))
    with (String " " (Linux.first_line (comm +:+ String " " tail))).
  rewrite first_line_word by done.
  change (Linux.first_line (String " " tail))
    with (String " " (Linux.first_line tail)).
  unfold Linux.extract. split.
  - rewrite skip_ws_word by done. by apply read_word_space.
  - change (Linux.skip_ws (String " " ?s)) with (Linux.skip_ws s).
    rewrite skip_ws_word by done. by apply read_word_space.
Qed.

Lemma is_nat_pretty_char (d : N) :
  (d < 10)%N → Ascii.is_nat (pretty_N_char d) = Some (N.to_nat d).
Proof.
  intros Hd.
  assert (d = 0 ∨ d = 1 ∨ d = 2 ∨ d = 3 ∨ d = 4 ∨ d = 5 ∨ d = 6 ∨ d = 7
          ∨ d = 8 ∨ d = 9)%N as Hcases by lia.
  by repeat (destruct Hcases as [->|Hcases]; [done|]); subst.
Qed.

Lemma digits_cons (acc : N) (seen : bool) (c : ascii) (s : string) (d : nat) :
  Ascii.is_nat c = Some d →
  Linux.digits acc seen (String c s)
  = Linux.digits (10 * acc + N.of_nat d) true s.
Proof.
  intros Hc.
  change (Linux.digits acc seen (String c s))
    with (match Ascii.is_nat c with
          | Some d => Linux.digits (10 * acc + N.of_nat d) true s
          | None => (acc, seen)
          end).
  by rewrite Hc.
Qed.

Lemma pretty_go_digits (x : N) :
  (0 < x)%N →
  ∃ k : N, ∀ (acc : N) (seen : bool) (s : string),
    Linux.digits acc seen (pretty_N_go x s)
    = Linux.digits (acc * 10 ^ k + x) true s.
Proof.
  induction (N.lt_wf_0 x) as [x _ IH]. intros Hpos.
  assert (Hchar := is_nat_pretty_char (x `mod` 10)%N
                     (N.mod_lt x 10 ltac:(done))).
  pose proof (N.div_mod x 10 ltac:(done)) as Hdm.
  destruct (N.eq_dec (x `div` 10) 0)%N as [Hsmall|Hbig].
  - exists 1%N. intros acc seen s. rewrite pretty_N_go_step by done.
    rewrite Hsmall, pretty_N_go_0, (digits_cons _ _ _ _ _ Hchar), N2Nat.id.
    f_equal. rewrite N.pow_1_r. lia.
  - destruct (IH (x `div` 10)%N) as [k Hk].
    { by apply N.div_lt. }
    { by apply N.neq_0_lt_0. }
    exists (k + 1)%N. intros acc seen s. rewrite pretty_N_go_step by done.
    rewrite Hk, (digits_cons _ _ _ _ _ Hchar), N2Nat.id. f_equal.
    rewrite N.pow_add_r, N.pow_1_r. lia.
Qed.

Lemma pretty_go_first (x : N) :
  (0 < x)%N → ∀ s, ∃ c r, pretty_N_go x s = String c r ∧ Linux.isdigit c = true.
Proof.
  induction (N.lt_wf_0 x) as [x _ IH]. intros Hpos s.
  rewrite pretty_N_go_step by done.
  destruct (N.eq_dec (x `div` 10) 0)%N as [Hsmall|Hbig].
  - rewrite Hsmall, pretty_N_go_0. eexists _, _. split; [done|].
    unfold Linux.isdigit.
    by rewrite (is_nat_pretty_char _ (N.mod_lt x 10 ltac:(done))).
  - apply IH; [by apply N.div_lt | by apply N.neq_0_lt_0].
Qed.

Lemma pretty_first (p : N) :
  ∃ c r, pretty p = String c r ∧ Linux.isdigit c = true.
Proof.
  unfold pretty, pretty_N. destruct (decide (p = 0%N)) as [->|Hne].
  - by eexists _, _.
  - apply pretty_go_first. lia.
Qed.

Lemma stoul_digit_start (c : ascii) (r : string) :
  Linux.isdigit c = true →
  Linux.stoul (String c r)
  = let '(v, seen) := Linux.digits 0 false (String c r) in
    if negb seen then Throws "stoul"
    else if (2 ^ 64 <=? v)%N then Throws "stoul"
    else Returns v.
Proof. by destruct c as [[] [] [] [] [] [] [] []]. Qed.

(** [std::stoul] reads back the decimal text of a number that fits
    [unsigned long]. *)
Lemma stoul_pretty (p : N) : (p < 2 ^ 64)%N → Linux.stoul (pretty p) = Returns p.
Proof.
  intros Hp. destruct (pretty_first p) as (c & r & Heq & Hc).
  rewrite Heq, (stoul_digit_start c r Hc), <- Heq.
  unfold pretty, pretty_N. destruct (decide (p = 0%N)) as [->|Hne]; [done|].
  destruct (pretty_go_digits p) as [k Hk]; [lia|].
  rewrite Hk, N.mul_0_l, N.add_0_l.
  change (Linux.digits p true EmptyString) with (p, true).
  cbv beta iota. cbn [negb].
  by replace (2 ^ 64 <=? p)%N with false by (symmetry; apply N.leb_gt; lia).
Qed.

(** One round of the loop on the entry of process [p] whose stat file
    opens and begins with the words [pid_str] and [comm]. *)
Lemma scan_proc_step (fs : Linux.ProcFs) (count p : N) (rest : list string)
    (processes : list ProcessInfo) (content pid_str comm iss iss' : string) :
  (p < 2 ^ 64)%N →
  (N.of_nat (length processes) < count)%N →
  Linux.open_file fs ("/proc/" +:+ pretty p +:+ "/stat") = Some content →
  Linux.extract (Linux.first_line content) = (pid_str, iss) →
  Linux.extract iss = (comm, iss') →
  Linux.scan_proc fs count (pretty p :: rest) processes
  = match Linux.substr comm 1 (size_t_sub (N.of_nat (String.length comm)) 2) with
    | Throws what => Throws what
    | Returns nm =>
        Linux.scan_proc fs count rest
          (processes ++ [mkProcessInfo (p mod 2 ^ 32) nm 0 0 "running"])
    end.
Proof.
  intros Hp Hroom Hfile Hpid Hcomm. simpl.
  replace (N.of_nat (length processes) <? count)%N with true
    by (symmetry; by apply N.ltb_lt).
  destruct (pretty_first p) as (c & r & Heq & Hc).
  replace (Linux.isdigit (Linux.first_char (pretty p))) with true
    by (by rewrite Heq).
  simpl. by rewrite (stoul_pretty p Hp), Hfile, Hpid, Hcomm.
Qed.

(** X17: for the entry of a process [p] whose stat file reads
    [pid (name) fields], the name free of white space, the loop records
    the process with its id (reduced to 32 bits) and exactly that name,
    and goes on with the next entry. *)
Theorem process_name_extracted (fs : Linux.ProcFs) (count p : N)
    (rest : list string) (processes : list ProcessInfo)
    (pid_str nm fields : string)
    (Hp : (p < 2 ^ 64)%N)
    (Hroom : (N.of_nat (length processes) < count)%N)
    (Hfile : Linux.open_file fs ("/proc/" +:+ pretty p +:+ "/stat")
             = Some (stat_line pid_str nm fields))
    (Hpid : pid_str ≠ EmptyString)
    (Hpidw : no_space pid_str = true)
    (Hnm : no_space nm = true)
    (Hlen : (N.of_nat (String.length nm) + 2 < 2 ^ 64)%N) :
  Linux.scan_proc fs count (pretty p :: rest) processes
  = Linux.scan_proc fs count rest
      (processes ++ [mkProcessInfo (p mod 2 ^ 32) nm 0 0 "running"]).
Proof.
  assert (Hline : stat_line pid_str nm fields
                  = pid_str +:+ String " "
                      (String "(" (nm +:+ ")") +:+ String " " fields)).
  { unfold stat_line. f_equal. rewrite !string_app_cons. simpl.
    do 2 f_equal. by rewrite string_app_assoc. }
  destruct (extract_two_words pid_str (String "(" (nm +:+ ")")) fields)
    as (iss & iss' & H1 & H2); [done | done | done | |].
  { simpl. by rewrite no_space_app, Hnm. }
  rewrite <- Hline in H1.
  rewrite (scan_proc_step fs count p rest processes _ _ _ _ _ Hp Hroom Hfile H1 H2).
  unfold Linux.substr. simpl String.length. rewrite string_length_app. simpl.
  replace (N.of_nat (S (String.length nm + 1)) <? 1)%N with false
    by (symmetry; apply N.ltb_ge; lia).
  replace (size_t_sub (N.of_nat (S (String.length nm + 1))) 2)
    with (N.of_nat (String.length nm)).
  2:{ unfold size_t_sub. rewrite Z.mod_small by lia. lia. }
  rewrite N.min_l by lia. rewrite Nat2N.id.
  change (N.to_nat 1) with 1. simpl. by rewrite substring_app_l.
Qed.

Lemma process_name_extracted_example :
  ((42 < 2 ^ 64)%N ∧ (N.of_nat (length (@nil ProcessInfo)) < 10)%N
   ∧ Linux.open_file example_proc ("/proc/" +:+ pretty 42%N +:+ "/stat")
     = Some (stat_line "42" "bash" ("S 1 42" +:+ nl)))
  ∧ Linux.scan_proc example_proc 10 [pretty 42%N] []
    = Returns [mkProcessInfo 42 "bash" 0 0 "running"].
Proof.
  split; [repeat split; reflexivity|].
  rewrite (process_name_extracted example_proc 10 42 [] [] "42" "bash"
             ("S 1 42" +:+ nl)); [reflexivity | reflexivity | reflexivity
             | reflexivity | discriminate | reflexivity | reflexivity | reflexivity].
Defined.

(** X18: when the name of the process contains a blank, the stat file
    reading [pid (first rest) fields], the second word of the line is an
    opening parenthesis and the first word of the name; dropping its
    first and last character records the first word of the name without
    its last character. *)
Theorem process_name_cut_at_blank (fs : Linux.ProcFs) (count p : N)
    (rest : list string) (processes : list ProcessInfo)
    (pid_str w1 w2 fields : string)
    (Hp : (p < 2 ^ 64)%N)
    (Hroom : (N.of_nat (length processes) < count)%N)
    (Hfile : Linux.open_file fs ("/proc/" +:+ pretty p +:+ "/stat")
             = Some (stat_line pid_str (w1 +:+ " " +:+ w2) fields))
    (Hpid : pid_str ≠ EmptyString)
    (Hpidw : no_space pid_str = true)
    (Hw1 : no_space w1 = true)
    (Hlen : (N.of_nat (String.length w1) + 1 < 2 ^ 64)%N) :
  Linux.scan_proc fs count (pretty p :: rest) processes
  = Linux.scan_proc fs count rest
      (processes
       ++ [mkProcessInfo (p mod 2 ^ 32)
             (String.substring 0 (String.length w1 - 1) w1) 0 0 "running"]).
Proof.
  assert (Hline : stat_line pid_str (w1 +:+ " " +:+ w2) fields
                  = pid_str +:+ String " "
                      (String "(" w1 +:+ String " " (w2 +:+ ") " +:+ fields))).
  { unfold stat_line. f_equal. rewrite !string_app_cons. simpl.
    do 2 f_equal. by rewrite string_app_assoc. }
  destruct (extract_two_words pid_str (String "(" w1) (w2 +:+ ") " +:+ fields))
    as (iss & iss' & H1 & H2); [done | done | done | by simpl |].
  rewrite <- Hline in H1.
  rewrite (scan_proc_step fs count p rest processes _ _ _ _ _ Hp Hroom Hfile H1 H2).
  unfold Linux.substr. simpl String.length.
  replace (N.of_nat (S (String.length w1)) <? 1)%N with false
    by (symmetry; apply N.ltb_ge; lia).
  replace (N.to_nat (N.min (size_t_sub (N.of_nat (S (String.length w1))) 2)
                       (N.of_nat (S (String.length w1)) - 1)))
    with (String.length w1 - 1).
  2:{ unfold size_t_sub. destruct w1 as [|c w1]; [done|].
      simpl String.length in *. rewrite Z.mod_small by lia. lia. }
  change (N.to_nat 1) with 1. by destruct (String.length w1 - 1).
Qed.

Lemma process_name_cut_at_blank_example :
  ((7 < 2 ^ 64)%N ∧ (N.of_nat (length (@nil ProcessInfo)) < 10)%N
   ∧ Linux.open_file awkward_proc ("/proc/" +:+ pretty 7%N +:+ "/stat")
     = Some (stat_line "7" ("Web" +:+ " " +:+ "Content") ("S 1 7" +:+ nl)))
  ∧ Linux.scan_proc awkward_proc 10 [pretty 7%N] []
    = Returns [mkProcessInfo 7 "We" 0 0 "running"].
Proof.
  split; [repeat split; reflexivity|].
  rewrite (process_name_cut_at_blank awkward_proc 10 7 [] [] "7" "Web" "Content"
             ("S 1 7" +:+ nl)); [reflexivity | reflexivity | reflexivity
             | reflexivity | discriminate | reflexivity | reflexivity | reflexivity].
Defined.

Lemma blanks_cons (c : ascii) (s : string) :
  blanks (String c s) = true →
  Ascii.is_space c = true ∧ Ascii.eqb c "010" = false ∧ blanks s = true.
Proof.
  simpl. intros H. apply andb_true_iff in H as [H Hs].
  apply andb_true_iff in H as [Hc Hn]. by apply negb_true_iff in Hn.
Qed.

Lemma skip_ws_blanks (b s : string) :
  blanks b = true → Linux.skip_ws (b +:+ s) = Linux.skip_ws s.
Proof.
  induction b as [|c b IH]; intros Hb; [done|].
  apply blanks_cons in Hb as (Hc & _ & Hb).
  rewrite string_app_cons. simpl. rewrite Hc. by apply IH.
Qed.

Lemma first_line_blanks (b s : string) :
  blanks b = true → Linux.first_line (b +:+ s) = b +:+ Linux.first_line s.
Proof.
  induction b as [|c b IH]; intros Hb; [done|].
  apply blanks_cons in Hb as (_ & Hn & Hb).
  rewrite !string_app_cons. simpl. rewrite Hn. by rewrite IH.
Qed.

(** A word ends where white space begins or the text ends. *)
Lemma read_word_stop (w s : string) :
  no_space w = true → blanks s = true →
  Linux.read_word (w +:+ s) = (w, s).
Proof.
  intros Hw Hs. destruct s as [|c s].
  - rewrite string_app_nil_r. by apply read_word_end.
  - apply blanks_cons in Hs as (Hc & _ & _).
    induction w as [|a w IH]; [simpl; by rewrite Hc|].
    simpl in Hw. apply andb_true_iff in Hw as [Ha Hw].
    apply negb_true_iff in Ha. rewrite string_app_cons. simpl. rewrite Ha.
    by rewrite IH.
Qed.

(** On a line of at most one word the second extraction finds none. *)
Lemma extract_one_word (b1 w b2 : string) :
  blanks b1 = true → no_space w = true → blanks b2 = true →
  ∃ pid_str iss iss',
    Linux.extract (b1 +:+ w +:+ b2) = (pid_str, iss)
    ∧ Linux.extract iss = (EmptyString, iss').
Proof.
  intros Hb1 Hw Hb2.
  assert (Hend : Linux.extract b2 = (EmptyString, EmptyString)).
  { unfold Linux.extract. rewrite <- (string_app_nil_r b2).
    by rewrite skip_ws_blanks. }
  unfold Linux.extract at 1. rewrite skip_ws_blanks by done.
  destruct w as [|c w].
  - exists EmptyString, EmptyString, EmptyString.
    change (EmptyString +:+ b2) with b2.
    unfold Linux.extract in Hend. by rewrite Hend.
  - exists (String c w), b2, EmptyString.
    rewrite skip_ws_word by done. by rewrite read_word_stop.
Qed.

(** X19: when the stat file of a process opens but its first line holds
    at most one word (the file is empty, or holds only a number, with or
    without a line feed and blanks around it), the second word of the
    line is empty and [substr(1, ...)] throws [std::out_of_range]: the
    loop does not skip the process, the whole call fails and the
    processes found so far are lost. *)
Theorem short_stat_line_throws (fs : Linux.ProcFs) (count p : N)
    (rest : list string) (processes : list ProcessInfo)
    (b1 w b2 tail : string)
    (Hp : (p < 2 ^ 64)%N)
    (Hroom : (N.of_nat (length processes) < count)%N)
    (Hfile : Linux.open_file fs ("/proc/" +:+ pretty p +:+ "/stat")
             = Some (b1 +:+ w +:+ b2 +:+ tail))
    (Hb1 : blanks b1 = true)
    (Hw : no_space w = true)
    (Hb2 : blanks b2 = true)
    (Htail : tail = EmptyString ∨ ∃ more, tail = String "010" more) :
  Linux.scan_proc fs count (pretty p :: rest) processes
  = Throws "basic_string::substr: __pos (which is 1) > this->size() (which is 0)".
Proof.
  assert (Hline : Linux.first_line (b1 +:+ w +:+ b2 +:+ tail) = b1 +:+ w +:+ b2).
  { rewrite first_line_blanks, first_line_word, first_line_blanks by done.
    replace (Linux.first_line tail) with EmptyString
      by (by destruct Htail as [->|[more ->]]).
    by rewrite string_app_nil_r. }
  destruct (extract_one_word b1 w b2 Hb1 Hw Hb2) as (pid_str & iss & iss' & H1 & H2).
  rewrite <- Hline in H1.
  by rewrite (scan_proc_step fs count p rest processes _ _ _ _ _
                Hp Hroom Hfile H1 H2).
Qed.

(** X19 on a stat file that holds a number and a line feed. *)
Lemma short_stat_line_throws_example :
  ((8 < 2 ^ 64)%N ∧ (N.of_nat (length (@nil ProcessInfo)) < 10)%N
   ∧ Linux.open_file awkward_proc ("/proc/" +:+ pretty 8%N +:+ "/stat")
     = Some (EmptyString +:+ "8" +:+ EmptyString +:+ nl))
  ∧ Linux.scan_proc awkward_proc 10 [pretty 8%N] []
    = Throws "basic_string::substr: __pos (which is 1) > this->size() (which is 0)".
Proof.
  split; [repeat split; reflexivity|].
  apply (short_stat_line_throws awkward_proc 10 8 [] [] EmptyString "8"
           EmptyString nl); try reflexivity.
  right. by exists EmptyString.
Defined.

(** ** The network reader *)

Lemma pretty_go_app (x : N) :
  ∀ s t, pretty_N_go x s +:+ t = pretty_N_go x (s +:+ t).
Proof.
  induction (N.lt_wf_0 x) as [x _ IH]. intros s t.
  destruct (N.eq_dec x 0%N) as [->|Hne]; [by rewrite !pretty_N_go_0|].
  rewrite (pretty_N_go_step x s), (pretty_N_go_step x (s +:+ t)) by lia.
  rewrite (IH (x `div` 10)%N); [reflexivity|].
  apply N.div_lt; lia.
Qed.

Lemma digits_rest_cons (acc : N) (seen : bool) (c : ascii) (s : string) (d : nat) :
  Ascii.is_nat c = Some d →
  Net.digits_rest acc seen (String c s)
  = Net.digits_rest (10 * acc + N.of_nat d) true s.
Proof.
  intros Hc.
  change (Net.digits_rest acc seen (String c s))
    with (match Ascii.is_nat c with
          | Some d => Net.digits_rest (10 * acc + N.of_nat d) true s
          | None => (acc, seen, String c s)
          end).
  by rewrite Hc.
Qed.

Lemma pretty_go_digits_rest (x : N) :
  (0 < x)%N →
  ∃ k : N, ∀ (acc : N) (seen : bool) (s : string),
    Net.digits_rest acc seen (pretty_N_go x s)
    = Net.digits_rest (acc * 10 ^ k + x) true s.
Proof.
  induction (N.lt_wf_0 x) as [x _ IH]. intros Hpos.
  assert (Hchar := is_nat_pretty_char (x `mod` 10)%N
                     (N.mod_lt x 10 ltac:(done))).
  pose proof (N.div_mod x 10 ltac:(done)) as Hdm.
  destruct (N.eq_dec (x `div` 10) 0)%N as [Hsmall|Hbig].
  - exists 1%N. intros acc seen s. rewrite pretty_N_go_step by done.
    rewrite Hsmall, pretty_N_go_0, (digits_rest_cons _ _ _ _ _ Hchar), N2Nat.id.
    f_equal. rewrite N.pow_1_r. lia.
  - destruct (IH (x `div` 10)%N) as [k Hk].
    { by apply N.div_lt. }
    { by apply N.neq_0_lt_0. }
    exists (k + 1)%N. intros acc seen s. rewrite pretty_N_go_step by done.
    rewrite Hk, (digits_rest_cons _ _ _ _ _ Hchar), N2Nat.id. f_equal.
    rewrite N.pow_add_r, N.pow_1_r. lia.
Qed.

Lemma space_not_digit (c : ascii) :
  Ascii.is_space c = true → Ascii.is_nat c = None.
Proof. by destruct c as [[] [] [] [] [] [] [] []]. Qed.

(** The digits of a printed number, followed by white space. *)
Lemma digits_rest_pretty (n : N) (c : ascii) (rest : string) :
  Ascii.is_space c = true →
  Net.digits_rest 0 false (pretty n +:+ String c rest)
  = (n, true, String c rest).
Proof.
  intros Hc. apply space_not_digit in Hc.
  assert (Hstop : ∀ v, Net.digits_rest v true (String c rest)
                       = (v, true, String c rest)).
  { intros v. simpl. by rewrite Hc. }
  unfold pretty, pretty_N. destruct (decide (n = 0%N)) as [->|Hne].
  - rewrite string_app_cons, (digits_rest_cons _ _ _ _ 0) by done.
    apply Hstop.
  - rewrite pretty_go_app.
    change (EmptyString +:+ String c rest) with (String c rest).
    destruct (pretty_go_digits_rest n) as [k Hk]; [lia|].
    by rewrite Hk, N.mul_0_l, N.add_0_l.
Qed.

Lemma extract_ull_digit_start (cur : Z) (b : string) (c : ascii) (r : string) :
  Linux.skip_ws b = String c r →
  Linux.isdigit c = true →
  Net.extract_ull cur (Net.mkIstream b true)
  = let '(v, seen, rest) := Net.digits_rest 0 false (String c r) in
    if negb seen then (0%Z, Net.mkIstream rest false)
    else if (2 ^ 64 <=? v)%N then ((2 ^ 64 - 1)%Z, Net.mkIstream rest false)
    else (Z.of_N v, Net.mkIstream rest (Net.not_empty rest)).
Proof.
  intros Hskip Hc. unfold Net.extract_ull. simpl Net.good. cbn [negb].
  simpl Net.buffer. rewrite Hskip.
  by destruct c as [[] [] [] [] [] [] [] []].
Qed.

(** Reading one counter that is followed by another. *)
Lemma extract_next (cur : Z) (pad pad' : string) (n n' : N)
    (cs : list (string * N)) :
  blanks pad = true → pad' ≠ EmptyString → blanks pad' = true →
  (n < 2 ^ 64)%N →
  Net.extract_ull cur
    (Net.mkIstream (counters_text ((pad, n) :: (pad', n') :: cs)) true)
  = (Z.of_N n, Net.mkIstream (counters_text ((pad', n') :: cs)) true).
Proof.
  intros Hpad Hne' Hpad' Hn. cbn [counters_text].
  destruct pad' as [|c' pad']; [done|].
  apply blanks_cons in Hpad' as (Hc' & _ & _).
  rewrite string_app_cons.
  destruct (pretty_first n) as (c & r & Heq & Hc).
  pose proof (digits_rest_pretty n c' (pad' +:+ pretty n' +:+ counters_text cs) Hc')
    as Hd.
  rewrite (extract_ull_digit_start cur _ c
             (r +:+ String c' (pad' +:+ pretty n' +:+ counters_text cs))).
  - rewrite <- string_app_cons, <- Heq, Hd. cbn [negb].
    by replace (2 ^ 64 <=? n)%N with false by (symmetry; apply N.leb_gt; lia).
  - rewrite skip_ws_blanks by done. rewrite Heq, string_app_cons. simpl.
    by rewrite (digit_not_space c Hc).
  - done.
Qed.

Lemma iter_extract (k : nat) :
  ∀ (cs : list (string * N)) (cur : Z),
    S k < length cs →
    Forall (λ c : string * N,
              c.1 ≠ EmptyString ∧ blanks c.1 = true ∧ (c.2 < 2 ^ 64)%N) cs →
    Nat.iter (S k) (λ '(rx, iss), Net.extract_ull rx iss)
      (cur, Net.mkIstream (counters_text cs) true)
    = (Z.of_N (default 0%N (snd <$> cs !! k)),
       Net.mkIstream (counters_text (drop (S k) cs)) true).
Proof.
  induction k as [|k IH]; intros cs cur Hlen Hall.
  - destruct cs as [|[pad n] [|[pad' n'] cs]]; simpl in Hlen; try lia.
    change (Nat.iter 1 ?f ?x) with (f x). cbv beta match.
    apply Forall_cons in Hall as [(_ & ? & ?) Hall].
    apply Forall_cons in Hall as [(? & ? & _) _].
    by rewrite extract_next.
  - rewrite Nat.iter_succ, IH by (done || lia).
    destruct (lookup_lt_is_Some_2 cs (S k)) as [[pad n] Hn]; [lia|].
    destruct (lookup_lt_is_Some_2 cs (S (S k))) as [[pad' n'] Hn']; [lia|].
    rewrite (drop_S cs _ (S k) Hn), (drop_S cs _ (S (S k)) Hn').
    cbv beta match.
    pose proof (Forall_lookup_1 _ _ _ _ Hall Hn) as (_ & ? & ?).
    pose proof (Forall_lookup_1 _ _ _ _ Hall Hn') as (? & ? & _).
    rewrite extract_next by done. by rewrite Hn.
Qed.

Lemma find_colon_name (nm : string) :
  no_colon nm = true → Net.find_colon (nm +:+ ":") = Some (String.length nm).
Proof.
  unfold no_colon. induction nm as [|c nm IH]; [done|].
  rewrite string_app_cons. simpl.
  destruct (Ascii.eqb c ":"); [done|].
  destruct (Net.find_colon nm); [done|]. intros _. by rewrite IH.
Qed.

(** What a well-formed line adds to the totals. *)
Lemma read_line_dev (totals : float * float) (i : Interface) (ind_rx ind_tx : Z) :
  well_formed i →
  Net.read_line totals (dev_line i ind_rx ind_tx)
  = if String.eqb (if_name i) "lo" then totals
    else (PrimFloat.add totals.1 (Linux.double_of_ull (counter 7 i)),
          PrimFloat.add totals.2 (Linux.double_of_ull (counter 8 i))).
Proof.
  intros (Hind & Hne & Hsp & Hcol & Hlen & Hall). destruct i as [indent nm cs].
  simpl in *.
  unfold Net.read_line, dev_line, counter. simpl Net.line_text.
  simpl Net.ind_rx. simpl Net.ind_tx. simpl if_name. simpl if_counters.
  assert (Hword : Net.extract_word EmptyString
            (Net.mkIstream (indent +:+ nm +:+ ":" +:+ counters_text cs) true)
          = (nm +:+ ":", Net.mkIstream (counters_text cs) true)).
  { destruct cs as [|[pad n] cs]; [simpl in Hlen; lia|].
    apply Forall_cons in Hall as [(Hpne & Hpad & _) _]. simpl in Hpne, Hpad.
    cbn [counters_text].
    unfold Net.extract_word. simpl Net.good. cbn [negb]. simpl Net.buffer.
    rewrite skip_ws_blanks, skip_ws_word by done.
    destruct nm as [|c nm]; [done|]. rewrite string_app_cons.
    rewrite <- string_app_cons, <- string_app_assoc.
    destruct pad as [|c' pad]; [done|].
    apply blanks_cons in Hpad as (Hc' & _ & _).
    rewrite (string_app_cons c' pad).
    assert (Hstop : ∀ (w s : string),
              no_space w = true →
              Linux.read_word (w +:+ String c' s) = (w, String c' s)).
    { intros w s Hw. induction w as [|a w IH]; [simpl; by rewrite Hc'|].
      simpl in Hw. apply andb_true_iff in Hw as [Ha Hw].
      apply negb_true_iff in Ha. rewrite string_app_cons. simpl.
      rewrite Ha. by rewrite IH. }
    rewrite Hstop; [done|]. by rewrite no_space_app, Hsp. }
  rewrite Hword, (find_colon_name nm Hcol), substring_app_l.
  destruct (String.eqb nm "lo"); [done|]. cbn [negb].
  assert (Hfirst : ∀ cur cs', 1 < length cs' →
            Forall (λ c : string * N,
                      c.1 ≠ EmptyString ∧ blanks c.1 = true ∧ (c.2 < 2 ^ 64)%N)
              cs' →
            Net.extract_ull cur (Net.mkIstream (counters_text cs') true)
            = (Z.of_N (default 0%N (snd <$> cs' !! 0)),
               Net.mkIstream (counters_text (drop 1 cs')) true)).
  { intros cur cs' Hlen' Hall'. by apply (iter_extract 0). }
  rewrite Hfirst by (done || lia). cbv beta match.
  rewrite (iter_extract 6)
    by (rewrite ?length_drop; try lia; by apply Forall_drop).
  cbv beta match. rewrite drop_drop, lookup_drop.
  rewrite Hfirst by (rewrite ?length_drop; try lia; by apply Forall_drop).
  by rewrite lookup_drop.
Qed.

(** X20: on a file of two header lines and interface lines as the
    kernel prints them (the name, right-aligned or not, a colon, and
    the counters, each after one or more blanks), [get_network_usage]
    skips the loopback interface and, for every other interface, adds
    to the receive total the eighth counter of the line (receive
    multicast), the seven counters before it having been read into the
    same variable and overwritten, not the first (receive bytes); it
    adds to the transmit total the ninth counter (transmit bytes). *)
Theorem network_rx_is_eighth_counter (header1 header2 : Net.NetLine)
    (rows : list (Interface * (Z * Z)))
    (Hwf : Forall (λ row, well_formed row.1) rows) :
  Net.get_network_usage
    (header1 :: header2 :: ((λ row, dev_line row.1 row.2.1 row.2.2) <$> rows))
  = foldl (λ totals row,
             if String.eqb (if_name row.1) "lo" then totals
             else (PrimFloat.add totals.1 (Linux.double_of_ull (counter 7 row.1)),
                   PrimFloat.add totals.2 (Linux.double_of_ull (counter 8 row.1))))
      (0%float, 0%float) rows.
Proof.
  unfold Net.get_network_usage. change (drop 2 (header1 :: header2 :: ?l)) with l.
  generalize (0%float, 0%float).
  induction rows as [|row rows IH]; intros totals; [done|].
  apply Forall_cons in Hwf as [Hrow Hwf].
  rewrite fmap_cons. cbn [foldl]. rewrite read_line_dev by done. by apply IH.
Qed.

(** X20 on two lines as the kernel prints them. *)
Lemma network_rx_is_eighth_counter_example :
  Forall (λ row : Interface * (Z * Z), well_formed row.1)
    [(example_lo, (0, 0)%Z); (example_eth0, (0, 0)%Z)]
  ∧ Net.line_text (dev_line example_eth0 0 0)
    = "  eth0:    5000      50    0    0    0     0          0         3     7000      70    0    0    0     0       0          0"
  ∧ Net.get_network_usage example_dev = (3%float, 7000%float).
Proof.
  assert (Hwf : Forall (λ row : Interface * (Z * Z), well_formed row.1)
                  [(example_lo, (0, 0)%Z); (example_eth0, (0, 0)%Z)]).
  { repeat constructor; try discriminate; simpl; lia. }
  split; [exact Hwf|]. split; [reflexivity|].
  unfold example_dev.
  rewrite (network_rx_is_eighth_counter _ _
             [(example_lo, (0, 0)%Z); (example_eth0, (0, 0)%Z)] Hwf).
  reflexivity.
Defined.
